(** * multichain.js: the JSON-RPC client core and the Multichain connection resolver

    A shallow embedding of [jsonrpc.js] (the transport function [request],
    [JSONRPCRequest] and the class [JSONRPCClient]) and of [multichain.js]
    (the static methods [Client.getChainNames] and
    [Client.getConnectionByName]), followed by the properties of the
    specification that concern them.

    Conventions of the embedding.
    - JavaScript values are the type [JsVal]; strings are ASCII text, so the
      UTF-8 byte length of a string is its length and case mapping is the
      ASCII one.
    - An object literal is the list of its own enumerable properties in
      enumeration order; a key occurs once.
    - Objects that the program mutates and passes by reference (connection
      option objects) live in a heap and are named by their location.
    - A thrown exception is the [Throw] outcome of the monad [M]; the world
      keeps whatever was done before the throw.
    - [JSON.stringify], [JSON.parse], [uuid], the platform constant
      [CHAIN_PATH] and the file system are parameters of the development. *)

From Stdlib Require Import ZArith Ascii String List Bool Lia.
From stdpp Require Import base option strings list gmap pretty.

Open Scope string_scope.
Open Scope list_scope.
Set Warnings "-register-all".

(** ** JavaScript values *)

Inductive JsVal : Type :=
| JUndefined
| JNull
| JBool (b : bool)
| JNum (n : Z)
| JNaN
| JStr (s : string)
| JArr (items : list JsVal)
| JObj (props : list (string * JsVal)).

(** ToBoolean: the falsy values are [undefined], [null], [false], [0],
    [NaN] and the empty string. *)
Definition truthy (v : JsVal) : bool :=
  match v with
  | JUndefined | JNull | JNaN => false
  | JBool b => b
  | JNum n => negb (n =? 0)%Z
  | JStr s => negb (String.eqb s "")
  | JArr _ | JObj _ => true
  end.

(** The [typeof] operator. *)
Definition typeof (v : JsVal) : string :=
  match v with
  | JUndefined => "undefined"
  | JNull | JArr _ | JObj _ => "object"
  | JBool _ => "boolean"
  | JNum _ | JNaN => "number"
  | JStr _ => "string"
  end.

(** [v === n] for a number literal [n]. *)
Definition strict_eq_num (v : JsVal) (n : Z) : bool :=
  match v with
  | JNum m => (m =? n)%Z
  | _ => false
  end.

(** Array indexing [xs[i]]: [undefined] out of range. *)
Definition js_index (xs : list JsVal) (i : nat) : JsVal := nth i xs JUndefined.

(** Property read on an object literal: [undefined] for a missing key. *)
Fixpoint obj_get (props : list (string * JsVal)) (k : string) : JsVal :=
  match props with
  | [] => JUndefined
  | (k', v) :: rest => if String.eqb k' k then v else obj_get rest k
  end.

(** Property write [o[k] = v]: an existing key keeps its place. *)
Fixpoint obj_set (props : list (string * JsVal)) (k : string) (v : JsVal)
  : list (string * JsVal) :=
  match props with
  | [] => [(k, v)]
  | (k', v') :: rest =>
      if String.eqb k' k then (k, v) :: rest else (k', v') :: obj_set rest k v
  end.

(** Whether an object literal has the own property [k]. *)
Definition obj_has (props : list (string * JsVal)) (k : string) : bool :=
  existsb (fun kv => String.eqb (fst kv) k) props.

(** ** Strings *)

Fixpoint string_chars (s : string) : list ascii :=
  match s with
  | EmptyString => []
  | String c s' => c :: string_chars s'
  end.

Fixpoint string_map (f : ascii -> ascii) (s : string) : string :=
  match s with
  | EmptyString => EmptyString
  | String c s' => String (f c) (string_map f s')
  end.

Definition ascii_lower (c : ascii) : ascii :=
  let n := N_of_ascii c in
  if (65 <=? n)%N && (n <=? 90)%N then ascii_of_N (n + 32) else c.

Definition ascii_upper (c : ascii) : ascii :=
  let n := N_of_ascii c in
  if (97 <=? n)%N && (n <=? 122)%N then ascii_of_N (n - 32) else c.

Definition toLowerCase : string -> string := string_map ascii_lower.
Definition toUpperCase : string -> string := string_map ascii_upper.

(** White space of [String.prototype.trim] and of [\s] within ASCII. *)
Definition is_ws (c : ascii) : bool :=
  let n := N_of_ascii c in
  ((9 <=? n)%N && (n <=? 13)%N) || (n =? 32)%N.

Fixpoint trimStart (s : string) : string :=
  match s with
  | EmptyString => EmptyString
  | String c s' => if is_ws c then trimStart s' else s
  end.

Fixpoint trimEnd (s : string) : string :=
  match s with
  | EmptyString => EmptyString
  | String c s' =>
      match trimEnd s' with
      | EmptyString => if is_ws c then EmptyString else String c EmptyString
      | t => String c t
      end
  end.

Definition trim (s : string) : string := trimEnd (trimStart s).

Definition startsWith (s p : string) : bool := String.prefix p s.

(** [s.split(sep)] for a one-character separator: n separators give n+1
    pieces. *)
Fixpoint split_go (sep : ascii) (s : string) (cur : string) : list string :=
  match s with
  | EmptyString => [String.rev cur]
  | String c s' =>
      if Ascii.eqb c sep then String.rev cur :: split_go sep s' EmptyString
      else split_go sep s' (String c cur)
  end.

Definition js_split (sep : ascii) (s : string) : list string :=
  split_go sep s EmptyString.

(** [s.split(/\s+/g)]: a run of white space is one separator. *)
Fixpoint split_ws_go (s : string) (cur : string) (in_sep : bool) : list string :=
  match s with
  | EmptyString => [String.rev cur]
  | String c s' =>
      if is_ws c then
        if in_sep then split_ws_go s' cur true
        else String.rev cur :: split_ws_go s' EmptyString true
      else split_ws_go s' (String c cur) false
  end.

Definition split_ws (s : string) : list string := split_ws_go s EmptyString false.

(** The string has no occurrence of the character. *)
Definition no_char (c : ascii) (s : string) : bool :=
  forallb (fun x => negb (Ascii.eqb x c)) (string_chars s).

Definition newline : ascii := ascii_of_N 10.
Definition equals_sign : ascii := ascii_of_N 61.

Fixpoint join (sep : string) (parts : list string) : string :=
  match parts with
  | [] => ""
  | [p] => p
  | p :: rest => p +:+ sep +:+ join sep rest
  end.

(** ToString, as a template literal applies it. *)
Fixpoint to_string (v : JsVal) : string :=
  match v with
  | JUndefined => "undefined"
  | JNull => "null"
  | JBool true => "true"
  | JBool false => "false"
  | JNum n => pretty n
  | JNaN => "NaN"
  | JStr s => s
  | JArr items =>
      join "," (map (fun x => match x with
                              | JUndefined | JNull => ""
                              | _ => to_string x
                              end) items)
  | JObj _ => "[object Object]"
  end.

(** ** Exceptions *)

Inductive JsError : Type :=
| MissingParameter (descriptor : JsVal) (method : string) (position : nat)
| InvalidChain
| HttpFailure (status : Z)
| TypeError (what : string)
| FsError (what : string)
| NetworkError (code : string).

(** The message of the [Error] object each one stands for. *)
Definition message (e : JsError) : string :=
  match e with
  | MissingParameter d method i =>
      "Required parameter " +:+ to_string d +:+ " not found for method "
        +:+ method +:+ " at params[" +:+ pretty i +:+ "]!"
  | InvalidChain => "Invalid Chain!"
  | HttpFailure status => "Request failed. HTTP " +:+ pretty status
  | TypeError what => what
  | FsError what => what
  | NetworkError code => code
  end.

Inductive Exc (A : Type) : Type :=
| Ok (a : A)
| Throw (e : JsError).
Arguments Ok {A} a.
Arguments Throw {A} e.

Definition exc_bind {A B} (x : Exc A) (k : A -> Exc B) : Exc B :=
  match x with
  | Ok a => k a
  | Throw e => Throw e
  end.

(** ** Constants of jsonrpc.js *)

Definition RPC_VERSION : string := "2.0".

Module METHOD_CASING.
Definition DEFAULT : Z := 0.
Definition UPPER : Z := 1.
Definition LOWER : Z := 2.
End METHOD_CASING.

(** ** Reading a parameter descriptor *)

Definition index_keys (n : nat) : list string := map pretty (seq 0 n).

(** [Object.keys(v)]: the own enumerable keys; a type error on [undefined]
    and [null]. *)
Definition Object_keys (v : JsVal) : Exc (list string) :=
  match v with
  | JUndefined | JNull =>
      Throw (TypeError "Cannot convert undefined or null to object")
  | JObj props => Ok (map fst props)
  | JArr items => Ok (index_keys (length items))
  | JStr s => Ok (index_keys (String.length s))
  | JBool _ | JNum _ | JNaN => Ok []
  end.

Definition key_index (k : string) (n : nat) : option nat :=
  fst <$> list_find (fun i => bool_decide (pretty i = k)) (seq 0 n).

(** [v[k]] for an own property [k] of [v] (or for a name that no prototype
    defines, such as the string "undefined"). *)
Definition js_get (v : JsVal) (k : string) : JsVal :=
  match v with
  | JObj props => obj_get props k
  | JArr items =>
      match key_index k (length items) with
      | Some i => js_index items i
      | None => if String.eqb k "length" then JNum (Z.of_nat (length items))
                else JUndefined
      end
  | JStr s =>
      match key_index k (String.length s) with
      | Some i => match String.get i s with
                  | Some c => JStr (String c EmptyString)
                  | None => JUndefined
                  end
      | None => if String.eqb k "length" then JNum (Z.of_nat (String.length s))
                else JUndefined
      end
  | _ => JUndefined
  end.

(** The expression [d[Object.keys(d)[0]]] of [handleDefaults]: the value of
    the first own property of the descriptor [d].  [Object.keys(d)[0]] is
    [undefined] when [d] has no key, and the property name is then the
    string "undefined". *)
Definition first_property (d : JsVal) : Exc JsVal :=
  exc_bind (Object_keys d) (fun keys =>
    match keys with
    | [] => Ok (js_get d "undefined")
    | k :: _ => Ok (js_get d k)
    end).

(** ** The command schema *)

(** What [commands[method]] can be: an array of parameter descriptors (the
    entries the schema itself defines), or a member the schema object
    inherits from its prototype: a built-in function, whose [length] is its
    arity and whose indexed properties are all [undefined], or an object
    without a [length]. *)
Inductive Entry : Type :=
| EArray (descriptors : list JsVal)
| EFunction (arity : nat)
| EObject.

(** [e.length], [None] standing for [undefined]. *)
Definition entry_length (e : Entry) : option nat :=
  match e with
  | EArray ds => Some (length ds)
  | EFunction n => Some n
  | EObject => None
  end.

(** [e[i]] *)
Definition entry_at (e : Entry) (i : nat) : JsVal :=
  match e with
  | EArray ds => js_index ds i
  | EFunction _ | EObject => JUndefined
  end.

(** A schema object: its own enumerable properties, and the (non-enumerable)
    members reachable through its prototype chain. *)
Record Schema : Type := {
  own_entries : list (string * Entry);
  inherited : list (string * Entry)
}.

(** The members every object literal inherits from [Object.prototype]. *)
Definition Object_prototype : list (string * Entry) :=
  [ ("constructor", EFunction 1);
    ("__defineGetter__", EFunction 2);
    ("__defineSetter__", EFunction 2);
    ("hasOwnProperty", EFunction 1);
    ("__lookupGetter__", EFunction 1);
    ("__lookupSetter__", EFunction 1);
    ("isPrototypeOf", EFunction 1);
    ("propertyIsEnumerable", EFunction 1);
    ("toString", EFunction 0);
    ("valueOf", EFunction 0);
    ("__proto__", EObject);
    ("toLocaleString", EFunction 0) ].

(** The object literal with the given entries. *)
Definition literal (entries : list (string * list JsVal)) : Schema :=
  {| own_entries := map (fun kv => (fst kv, EArray (snd kv))) entries;
     inherited := Object_prototype |}.

Fixpoint assoc {A} (l : list (string * A)) (k : string) : option A :=
  match l with
  | [] => None
  | (k', a) :: rest => if String.eqb k' k then Some a else assoc rest k
  end.

(** [commands[method]]: own properties first, then the prototype chain. *)
Definition schema_get (commands : Schema) (method : string) : option Entry :=
  match assoc (own_entries commands) method with
  | Some e => Some e
  | None => assoc (inherited commands) method
  end.

(** [method in commands] *)
Definition js_in (method : string) (commands : Schema) : bool :=
  match schema_get commands method with
  | Some _ => true
  | None => false
  end.

(** The keys a [for ... in] loop over the schema visits. *)
Definition schema_keys (commands : Schema) : list string :=
  map fst (own_entries commands).

(** ** JSONRPCClient: parameter defaulting and method casing *)

(** The body of the [for] loop of [handleDefaults], run [todo] more times
    from index [i] with the output array [r]. *)
Fixpoint handleDefaults_loop (method : string) (params : list JsVal)
    (entry : Entry) (todo i : nat) (r : list JsVal) : Exc (list JsVal) :=
  match todo with
  | O => Ok r
  | S todo' =>
      let d := entry_at entry i in
      if negb (String.eqb (typeof d) "object") && negb (truthy (js_index params i))
      then Throw (MissingParameter d method i)
      else
        exc_bind
          (if truthy (js_index params i) then Ok (js_index params i)
           else first_property d)
          (fun v => handleDefaults_loop method params entry todo' (S i) (r ++ [v]))
  end.

(** [handleDefaults (method, params)], with [this.commands] as an argument.
    The loop runs while [i < this.commands[method].length], that is [length]
    times, and not at all when the length is [undefined]. *)
Definition handleDefaults (commands : Schema) (method : string)
    (params : list JsVal) : Exc (list JsVal) :=
  if js_in method commands then
    match schema_get commands method with
    | Some entry =>
        handleDefaults_loop method params entry
          (default 0 (entry_length entry)) 0 []
    | None => Ok []
    end
  else Ok [].

(** Position [i] is served when [handleDefaults] can fill it: the caller's
    value is truthy, or the descriptor is an object other than [null]. *)
Definition is_null (v : JsVal) : bool :=
  match v with
  | JNull => true
  | _ => false
  end.

Definition served (entry : Entry) (params : list JsVal) (i : nat) : bool :=
  truthy (js_index params i)
  || (String.eqb (typeof (entry_at entry i)) "object"
      && negb (is_null (entry_at entry i))).

(** The exception the loop body throws at a position that is not served. *)
Definition failure_at (method : string) (entry : Entry) (i : nat) : JsError :=
  if String.eqb (typeof (entry_at entry i)) "object"
  then TypeError "Cannot convert undefined or null to object"
  else MissingParameter (entry_at entry i) method i.

(** [handleCasing (method)], with [this.methodCasing] as an argument. *)
Definition handleCasing (methodCasing : JsVal) (method : string) : string :=
  if strict_eq_num methodCasing METHOD_CASING.DEFAULT then method
  else if strict_eq_num methodCasing METHOD_CASING.UPPER then toUpperCase method
  else if strict_eq_num methodCasing METHOD_CASING.LOWER then toLowerCase method
  else method.

(** ** The world: heap, network and file system *)

Definition loc : Type := nat.

(** Which of [require('http')] and [require('https')] carries a request. *)
Inductive Web : Type := Http | Https.

(** One call of [web.request(options, ...)] followed by [write(data)] and
    [end()]: the options object it was given (the reference, and the
    properties the object had at that moment) and the body written. *)
Record Exchange : Type := {
  web : Web;
  options_ref : loc;
  options_seen : list (string * JsVal);
  written : string
}.

Inductive FsEvent : Type :=
| EvReaddir (path : string)
| EvStat (path : string)
| EvReadFile (path : string).

Record World : Type := {
  heap : gmap loc (list (string * JsVal));
  sent : list Exchange;
  uuid_calls : nat;
  fs_trace : list FsEvent
}.

(** The object at a location; a location the heap does not hold is an
    object without properties. *)
Definition deref (w : World) (l : loc) : list (string * JsVal) :=
  default [] (heap w !! l).

Definition store (w : World) (l : loc) (o : list (string * JsVal)) : World :=
  {| heap := <[l := o]> (heap w); sent := sent w;
     uuid_calls := uuid_calls w; fs_trace := fs_trace w |}.

Definition record_exchange (w : World) (x : Exchange) : World :=
  {| heap := heap w; sent := sent w ++ [x];
     uuid_calls := uuid_calls w; fs_trace := fs_trace w |}.

Definition tick_uuid (w : World) : World :=
  {| heap := heap w; sent := sent w;
     uuid_calls := S (uuid_calls w); fs_trace := fs_trace w |}.

Definition record_fs (w : World) (ev : FsEvent) : World :=
  {| heap := heap w; sent := sent w;
     uuid_calls := uuid_calls w; fs_trace := fs_trace w ++ [ev] |}.

(** Computations that read and change the world and may throw. *)
Definition M (A : Type) : Type := World -> Exc A * World.

Definition ret {A} (a : A) : M A := fun w => (Ok a, w).

Definition throw {A} (e : JsError) : M A := fun w => (Throw e, w).

Definition bind {A B} (m : M A) (k : A -> M B) : M B :=
  fun w =>
    match m w with
    | (Ok a, w') => k a w'
    | (Throw e, w') => (Throw e, w')
    end.

Definition lift {A} (x : Exc A) : M A := fun w => (x, w).

Notation "x <- m ;; k" := (bind m (fun x => k))
  (at level 100, m at next level, right associativity).
Notation "m ;;; k" := (bind m (fun _ => k))
  (at level 100, right associativity).

(** [o[k]] and [o[k] = v] on the object at location [o]. *)
Definition get_prop (o : loc) (k : string) : M JsVal :=
  fun w => (Ok (obj_get (deref w o) k), w).

Definition set_prop (o : loc) (k : string) (v : JsVal) : M unit :=
  fun w => (Ok tt, store w o (obj_set (deref w o) k v)).

(** A promise as its creator sees it when the executor returns: waiting for
    the response of an exchange, or already rejected. *)
Inductive Promise : Type :=
| Pending (exchange : nat)
| Rejected (e : JsError).

(** How the response settles a promise.  An exception thrown inside the
    [end] handler settles nothing. *)
Inductive Settlement : Type :=
| Resolve (v : JsVal)
| Reject (v : JsVal)
| RejectError (e : JsError)
| Unsettled.

Record Response : Type := {
  statusCode : Z;
  headers : list (string * string);
  chunks : list string
}.

(** The directory listing, [statSync(p).isDirectory()] and file contents. *)
Record FileSystem : Type := {
  readdirSync : string -> Exc (list string);
  isDirectory : string -> Exc bool;
  readFileSync : string -> Exc string
}.

(** [Object.assign({}, v)]: a fresh object with the own enumerable
    properties of [v]. *)
Definition Object_assign_empty (v : JsVal) : list (string * JsVal) :=
  match v with
  | JObj props => props
  | JArr items => combine (index_keys (length items)) items
  | JStr s =>
      combine (index_keys (String.length s))
              (map (fun c => JStr (String c EmptyString)) (string_chars s))
  | _ => []
  end.

(** The properties of a value that is known to be an object literal. *)
Definition props_of (v : JsVal) : list (string * JsVal) :=
  match v with
  | JObj props => props
  | _ => []
  end.

(** The object [new JSONRPCRequest(method, params)] builds, [id] being the
    value [uuid()] returned. *)
Definition rpc_object (id method : string) (params : list JsVal) : JsVal :=
  JObj [("id", JStr id);
        ("method", JStr method);
        ("params", JArr params);
        ("jsonrpc", JStr RPC_VERSION)].

(** [options.protocol && options.protocol.trim().toLowerCase()
    .startsWith('https') ? require('https') : require('http')] *)
Definition select_web (protocol : JsVal) : Exc Web :=
  if truthy protocol then
    match protocol with
    | JStr s => Ok (if startsWith (toLowerCase (trim s)) "https" then Https else Http)
    | _ => Throw (TypeError "options.protocol.trim is not a function")
    end
  else Ok Http.

(** The options object [o] after the assignments of [request], [data] being
    the serialized request. *)
Definition prepared (o : list (string * JsVal)) (data : string)
  : list (string * JsVal) :=
  let o1 := obj_set o "headers" (JObj (Object_assign_empty (obj_get o "headers"))) in
  let o2 := obj_set o1 "headers"
              (JObj (obj_set (props_of (obj_get o1 "headers")) "content-type"
                             (JStr "application/json"))) in
  let o3 := obj_set o2 "headers"
              (JObj (obj_set (props_of (obj_get o2 "headers")) "content-length"
                             (JNum (Z.of_nat (String.length data))))) in
  let o4 := obj_set o3 "method" (JStr "POST") in
  if truthy (obj_get o4 "user") && truthy (obj_get o4 "pass")
  then obj_set o4 "auth"
         (JStr (to_string (obj_get o4 "user") +:+ ":" +:+ to_string (obj_get o4 "pass")))
  else o4.

(** A client whose fields hold what the constructor documents: a connection
    options object, a command schema and a casing value. *)
Record JSONRPCClient : Type := {
  connection : loc;
  commands : Schema;
  methodCasing : JsVal
}.

(** A Multichain client: a JSON-RPC client with a chain name. *)
Record Client : Type := {
  base : JSONRPCClient;
  _name : option string
}.

(** ** JSONRPCClient: the [commands] accessor and the bound methods *)

(** The own properties of a client object.  [_commands] holds a schema, or
    a bound function when a schema key has overwritten it; the other own
    properties are bound functions, references and plain values.
    [class_proto] tells whether the prototype of the object is still
    [JSONRPCClient.prototype], which carries the [commands] accessor. *)
Inductive Slot : Type :=
| SSchema (s : Schema)
| SBound (command : string).

Inductive Member : Type :=
| MBound (command : string)
| MRef (l : loc)
| MVal (v : JsVal).

Record Instance : Type := {
  _commands : option Slot;
  own : gmap string Member;
  class_proto : bool
}.

(** The keys [for (let command in this._commands)] visits: none for
    [undefined] and none for a function. *)
Definition for_in_keys (s : option Slot) : list string :=
  match s with
  | Some (SSchema commands) => schema_keys commands
  | Some (SBound _) | None => []
  end.

(** [delete this[command]] *)
Definition delete_property (this : Instance) (command : string) : Instance :=
  if String.eqb command "_commands" then
    {| _commands := None; own := own this; class_proto := class_proto this |}
  else
    {| _commands := _commands this; own := delete command (own this);
       class_proto := class_proto this |}.

(** The [commands] setter, [bind] being the body of its second loop. *)
Definition set_commands_with (bind : Instance -> string -> Instance)
    (this : Instance) (value : Slot) : Instance :=
  let this1 := fold_left delete_property (for_in_keys (_commands this)) this in
  let this2 := {| _commands := Some value; own := own this1;
                  class_proto := class_proto this1 |} in
  fold_left bind (for_in_keys (Some value)) this2.

(** [this[command] = function () { return this.call(command, arguments) }].
    The key [__proto__] reaches the setter of [Object.prototype] and makes
    the function the prototype of the client; the key [commands] reaches
    the accessor of the class, which runs the setter again with the
    function as its value (a function has no enumerable key, so the inner
    run binds nothing); any other key becomes an own property. *)
Definition assign_function (this : Instance) (command : string) : Instance :=
  if String.eqb command "__proto__" then
    {| _commands := _commands this; own := own this; class_proto := false |}
  else if String.eqb command "commands" && class_proto this then
    set_commands_with (fun this' _ => this') this (SBound command)
  else if String.eqb command "_commands" then
    {| _commands := Some (SBound command); own := own this;
       class_proto := class_proto this |}
  else
    {| _commands := _commands this; own := <[command := MBound command]> (own this);
       class_proto := class_proto this |}.

(** [set commands (value)] *)
Definition set_commands (this : Instance) (value : Schema) : Instance :=
  set_commands_with assign_function this (SSchema value).

(** [get commands ()] *)
Definition get_commands (this : Instance) : option Slot := _commands this.

(** [this.k = m] for a key no prototype has an accessor for. *)
Definition assign_data (this : Instance) (k : string) (m : Member) : Instance :=
  {| _commands := _commands this; own := <[k := m]> (own this);
     class_proto := class_proto this |}.

(** [new JSONRPCClient(connection, commands, methodCasing)]; the default
    [METHOD_CASING.LOWER] applies when the third argument is [undefined]. *)
Definition new_JSONRPCClient (connection : loc) (commands : Schema)
    (methodCasing : JsVal) : Instance :=
  let casing := match methodCasing with
                | JUndefined => JNum METHOD_CASING.LOWER
                | v => v
                end in
  let this0 := {| _commands := None; own := ∅; class_proto := true |} in
  let this1 := assign_data this0 "connection" (MRef connection) in
  let this2 := set_commands this1 commands in
  assign_data this2 "methodCasing" (MVal casing).

(** The command that the function bound at the own property [k] forwards
    to [call], if a bound function is there. *)
Definition bound_at (this : Instance) (k : string) : option string :=
  if String.eqb k "_commands" then
    match _commands this with
    | Some (SBound command) => Some command
    | _ => None
    end
  else
    match own this !! k with
    | Some (MBound command) => Some command
    | _ => None
    end.

(** What enumerating the chains can do to the world: extend the file
    system trace, with directory listings and [stat] calls only. *)
Definition only_enumerates (w w' : World) : Prop :=
  heap w' = heap w /\ sent w' = sent w /\ uuid_calls w' = uuid_calls w /\
  exists tr, fs_trace w' = fs_trace w ++ tr /\
             forall path, EvReadFile path ∉ tr.

(** ** Concrete parameters for the examples *)

Definition dquote : string := String (ascii_of_N 34) EmptyString.

(** A JSON writer for values whose strings need no escaping. *)
Fixpoint example_stringify (v : JsVal) : string :=
  match v with
  | JUndefined | JNull | JNaN => "null"
  | JBool true => "true"
  | JBool false => "false"
  | JNum n => pretty n
  | JStr s => dquote +:+ s +:+ dquote
  | JArr items => "[" +:+ join "," (map example_stringify items) +:+ "]"
  | JObj props =>
      "{" +:+ join "," (map (fun '(k, x) =>
                               dquote +:+ k +:+ dquote +:+ ":" +:+ example_stringify x)
                            props) +:+ "}"
  end.



Definition example_uuid (n : nat) : string := "uuid-" +:+ pretty n.

Definition example_chain_path : string := "/home/user/.multichain".

Definition example_fs : FileSystem :=
  {| readdirSync := fun path =>
       if String.eqb path "/home/user/.multichain"
       then Ok [".cli_history"; "chain1"; "multichaind"; "notes.txt"]
       else Throw (FsError "ENOENT");
     isDirectory := fun path =>
       Ok (negb (String.eqb path "/home/user/.multichain/notes.txt"));
     readFileSync := fun path =>
       if String.eqb path "/home/user/.multichain/chain1/multichain.conf"
       then Ok ("rpcuser=multichainrpc" +:+ String newline
                ("rpcpassword=secret" +:+ String newline ""))
       else if String.eqb path "/home/user/.multichain/chain1/params.dat"
       then Ok ("chain-protocol = multichain" +:+ String newline
                ("default-rpc-port = 4242    # rpc" +:+ String newline ""))
       else Throw (FsError "ENOENT") |}.

(** A world with one connection options object, at location 1. *)
Definition example_world : World :=
  {| heap := {[ 1 := [("host", JStr "localhost"); ("method", JStr "GET")] ]};
     sent := []; uuid_calls := 0; fs_trace := [] |}.

Definition example_schema : Schema :=
  literal [ ("getinfo", []);
            ("getaddresses", [JObj [("verbose", JBool false)]]);
            ("grant", [JStr "addresses"; JStr "permissions";
                       JObj [("native-amount", JNum 0)]]) ].

Definition example_client : JSONRPCClient :=
  {| connection := 1; commands := example_schema;
     methodCasing := JNum METHOD_CASING.LOWER |}.


(** A client object built on the schema [{a: []}]. *)
Definition example_instance : Instance :=
  new_JSONRPCClient 1 (literal [("a", [])]) JUndefined.

(** A world whose connection options carry a number as [protocol]. *)
Definition example_world_bad_protocol : World :=
  {| heap := {[ 1 := [("host", JStr "localhost"); ("protocol", JNum 1)] ]};
     sent := []; uuid_calls := 0; fs_trace := [] |}.

(** A data folder whose chain has a configuration and no parameter file. *)
Definition example_fs_partial : FileSystem :=
  {| readdirSync := fun path => Ok ["chain1"];
     isDirectory := fun path => Ok true;
     readFileSync := fun path =>
       if String.eqb path "/home/user/.multichain/chain1/multichain.conf"
       then Ok ("rpcuser=multichainrpc" +:+ String newline
                ("rpcpassword=secret" +:+ String newline ""))
       else Throw (FsError "ENOENT") |}.

(** A data folder with a hidden entry on which [statSync] throws. *)
Definition example_fs_broken : FileSystem :=
  {| readdirSync := fun path => Ok [".lock"; "chain1"];
     isDirectory := fun path =>
       if String.eqb path "/home/user/.multichain/.lock"
       then Throw (FsError "ELOOP") else Ok true;
     readFileSync := fun path => Throw (FsError "ENOENT") |}.

Section Program.

(** [JSON.stringify] and [JSON.parse] ([None]: a syntax error); the value
    the n-th call of [uuid()] returns; the Multichain data folder and the
    file system. *)
Variable JSON_stringify : JsVal -> string.
Variable JSON_parse : string -> option JsVal.
Variable uuid : nat -> string.
Variable CHAIN_PATH : string.
Variable fs : FileSystem.

(** The table that [require('./commands.js')] returns; the module is not
    part of the sources at hand. *)
Variable commands_js : Schema.

(** ** The transport *)

(** [new JSONRPCRequest(method, params)]: the constructor calls [uuid()]
    once. *)
Definition JSONRPCRequest (method : string) (params : list JsVal) : M JsVal :=
  fun w => (Ok (rpc_object (uuid (uuid_calls w)) method params), tick_uuid w).

(** [options.headers[k] = v] *)
Definition set_header (options : loc) (k : string) (v : JsVal) : M unit :=
  h <- get_prop options "headers" ;;
  set_prop options "headers" (JObj (obj_set (props_of h) k v)).

(** [web.request(options, ...)], [request.write(data)], [request.end()] *)
Definition web_request (via : Web) (options : loc) (data : string) : M nat :=
  fun w =>
    (Ok (length (sent w)),
     record_exchange w {| web := via; options_ref := options;
                          options_seen := deref w options; written := data |}).

(** The executor of the promise that [request] creates. *)
Definition request_executor (method : string) (params : list JsVal)
    (options : loc) : M Promise :=
  rpc <- JSONRPCRequest (trim method) params ;;
  let data := JSON_stringify rpc in
  protocol <- get_prop options "protocol" ;;
  via <- lift (select_web protocol) ;;
  h <- get_prop options "headers" ;;
  set_prop options "headers" (JObj (Object_assign_empty h)) ;;;
  set_header options "content-type" (JStr "application/json") ;;;
  set_header options "content-length" (JNum (Z.of_nat (String.length data))) ;;;
  set_prop options "method" (JStr "POST") ;;;
  user <- get_prop options "user" ;;
  pass <- get_prop options "pass" ;;
  (if truthy user && truthy pass
   then set_prop options "auth" (JStr (to_string user +:+ ":" +:+ to_string pass))
   else ret tt) ;;;
  x <- web_request via options data ;;
  ret (Pending x).

(** [request (method, params, options)]: an exception thrown by the
    executor rejects the promise. *)
Definition request (method : string) (params : list JsVal) (options : loc)
  : World -> Promise * World :=
  fun w =>
    match request_executor method params options w with
    | (Ok p, w') => (p, w')
    | (Throw e, w') => (Rejected e, w')
    end.

(** The [end] handler of the response. *)
Definition on_end (res : Response) : Settlement :=
  let body := fold_left String.append (chunks res) "" in
  if (statusCode res =? 200)%Z then
    match JSON_parse body with
    | Some v => Resolve v
    | None => Unsettled
    end
  else if bool_decide (assoc (headers res) "content-type" = Some "application/json") then
    match JSON_parse body with
    | Some v => Reject v
    | None => Unsettled
    end
  else RejectError (HttpFailure (statusCode res)).

(** The [error] handler of the request. *)
Definition on_error (err : JsError) : Settlement := RejectError err.

(** ** JSONRPCClient.call *)

(** [call (method, params)]: the arguments of [request] are evaluated from
    left to right, then [request] is called. *)
Definition call (this : JSONRPCClient) (method : string) (params : list JsVal)
  : M Promise :=
  fun w =>
    let wire := handleCasing (methodCasing this) method in
    match handleDefaults (commands this) method params with
    | Throw e => (Throw e, w)
    | Ok r =>
        let (p, w') := request wire r (connection this) w in
        (Ok p, w')
    end.

(** The convenience method the [commands] setter creates for [command]:
    [function () { return this.call(command, arguments) }]. *)
Definition bound_method (command : string) (this : JSONRPCClient)
    (arguments : list JsVal) : M Promise :=
  call this command arguments.


(** ** multichain.js: Client.getChainNames and Client.getConnectionByName *)

Definition fs_readdir (path : string) : M (list string) :=
  fun w => (readdirSync fs path, record_fs w (EvReaddir path)).

Definition fs_isDirectory (path : string) : M bool :=
  fun w => (isDirectory fs path, record_fs w (EvStat path)).

Definition fs_readFile (path : string) : M string :=
  fun w => (readFileSync fs path, record_fs w (EvReadFile path)).

(** The [filter] of [getChainNames]: the callback runs on every element, in
    order, and [statSync] is its first operation. *)
Fixpoint filter_chains (elements : list string) : M (list string) :=
  match elements with
  | [] => ret []
  | element :: rest =>
      dir <- fs_isDirectory (CHAIN_PATH +:+ "/" +:+ element) ;;
      kept <- filter_chains rest ;;
      ret (if dir && negb (startsWith element ".")
                  && negb (String.eqb element "multichaind")
           then element :: kept else kept)
  end.

Definition getChainNames : M (list string) :=
  elements <- fs_readdir CHAIN_PATH ;;
  filter_chains elements.

(** [text.trim().split('\n').map((element) => element.trim())] *)
Definition trimmed_lines (text : string) : list string :=
  map trim (js_split newline (trim text)).

(** [line.split('=')[1]] *)
Definition after_equals (line : string) : JsVal :=
  match js_split equals_sign line with
  | _ :: v :: _ => JStr v
  | _ => JUndefined
  end.

(** [v.trim().split(/\s+/g)[0]] *)
Definition first_token (v : string) : JsVal :=
  match split_ws (trim v) with
  | tok :: _ => JStr tok
  | [] => JUndefined
  end.

Definition getConnectionByName (name : string) (connection : loc) : M loc :=
  chains <- getChainNames ;;
  if existsb (String.eqb name) chains then
    text <- fs_readFile (CHAIN_PATH +:+ "/" +:+ name +:+ "/multichain.conf") ;;
    let config := trimmed_lines text in
    set_prop connection "user" (after_equals (nth 0 config "")) ;;;
    pass <- match nth_error config 1 with
            | Some line => ret (after_equals line)
            | None => throw (TypeError "Cannot read property 'split' of undefined")
            end ;;
    set_prop connection "pass" pass ;;;
    text' <- fs_readFile (CHAIN_PATH +:+ "/" +:+ name +:+ "/params.dat") ;;
    port <- match find (fun element => startsWith element "default-rpc-port")
                       (trimmed_lines text') with
            | Some line =>
                match after_equals line with
                | JStr v => ret (first_token v)
                | _ => throw (TypeError "Cannot read property 'trim' of undefined")
                end
            | None => throw (TypeError "Cannot read property 'split' of undefined")
            end ;;
    set_prop connection "port" port ;;;
    ret connection
  else throw InvalidChain.

Definition set_name (this : Client) (value : string) : M Client :=
  c <- getConnectionByName value (connection (base this)) ;;
  ret {| base := {| connection := c; commands := commands (base this);
                    methodCasing := methodCasing (base this) |};
         _name := Some value |}.


(** The test of the [filter] callback of [getChainNames] on an element,
    [false] when [statSync] throws on it. *)
Definition is_chain_dir (element : string) : bool :=
  match isDirectory fs (CHAIN_PATH +:+ "/" +:+ element) with
  | Ok dir => dir && negb (startsWith element ".")
                  && negb (String.eqb element "multichaind")
  | Throw _ => false
  end.

(** * Properties *)

(** ** Parameter defaulting *)


Lemma first_property_object (d : JsVal) :
  typeof d = "object" -> is_null d = false -> exists v, first_property d = Ok v.
Proof.
  destruct d; simpl; try discriminate; intros _ _; unfold first_property; simpl.
  - destruct (index_keys (length items)); eauto.
  - destruct (map fst props); eauto.
Qed.

Lemma first_property_null : first_property JNull
  = Throw (TypeError "Cannot convert undefined or null to object").
Proof. reflexivity. Qed.

(** One turn of the loop at a served position pushes a value and goes on. *)
Lemma loop_step_served method params entry todo i r :
  served entry params i = true ->
  exists v,
    handleDefaults_loop method params entry (S todo) i r
    = handleDefaults_loop method params entry todo (S i) (r ++ [v])
    /\ (if truthy (js_index params i) then v = js_index params i
        else first_property (entry_at entry i) = Ok v).
Proof.
  unfold served. intros Hs. cbn [handleDefaults_loop].
  destruct (truthy (js_index params i)) eqn:Ht.
  - rewrite andb_false_r. exists (js_index params i). split; reflexivity.
  - simpl in Hs. apply andb_true_iff in Hs as [Hobj Hnull].
    rewrite Hobj. simpl.
    apply String.eqb_eq in Hobj. apply negb_true_iff in Hnull.
    destruct (first_property_object _ Hobj Hnull) as [v Hv].
    exists v. rewrite Hv. split; reflexivity.
Qed.

(** One turn of the loop at a position that is not served throws. *)
Lemma loop_step_unserved method params entry todo i r :
  served entry params i = false ->
  handleDefaults_loop method params entry (S todo) i r
  = Throw (failure_at method entry i).
Proof.
  unfold served, failure_at. intros Hs. cbn [handleDefaults_loop].
  apply orb_false_iff in Hs as [Ht Hd]. rewrite Ht. simpl.
  destruct (String.eqb (typeof (entry_at entry i)) "object") eqn:Hobj; simpl.
  - simpl in Hd. apply negb_false_iff in Hd.
    destruct (entry_at entry i); try discriminate. reflexivity.
  - reflexivity.
Qed.

(** What the loop returns when it returns: the output array grown by one
    value for each position, the caller's value where it is truthy and the
    first property of the descriptor elsewhere. *)
Lemma handleDefaults_loop_ok method params entry todo :
  forall i r r',
    handleDefaults_loop method params entry todo i r = Ok r' ->
    exists vs,
      r' = r ++ vs /\ length vs = todo /\
      forall j v, vs !! j = Some v ->
        if truthy (js_index params (i + j)) then v = js_index params (i + j)
        else first_property (entry_at entry (i + j)) = Ok v.
Proof.
  induction todo as [|todo IH]; intros i r r' Hrun.
  - simpl in Hrun. injection Hrun as <-. exists []. rewrite app_nil_r.
    repeat split. intros j v Hj. discriminate.
  - destruct (served entry params i) eqn:Hs.
    + destruct (loop_step_served method params entry todo i r Hs) as (v & Hstep & Hv).
      rewrite Hstep in Hrun. apply IH in Hrun as (vs & -> & Hlen & Hvs).
      exists (v :: vs). rewrite <- app_assoc. repeat split.
      * simpl. now rewrite Hlen.
      * intros [|j] v' Hj.
        -- injection Hj as <-. now rewrite Nat.add_0_r.
        -- replace (i + S j) with (S i + j) by lia. now apply Hvs.
    + rewrite (loop_step_unserved _ _ _ _ _ _ Hs) in Hrun. discriminate.
Qed.

(** The loop returns when every position it visits is served. *)
Lemma handleDefaults_loop_total method params entry todo :
  forall i r,
    (forall j, j < todo -> served entry params (i + j) = true) ->
    exists r', handleDefaults_loop method params entry todo i r = Ok r'.
Proof.
  induction todo as [|todo IH]; intros i r Hall.
  - exists r. reflexivity.
  - assert (Hs : served entry params i = true).
    { rewrite <- (Nat.add_0_r i). apply Hall. lia. }
    destruct (loop_step_served method params entry todo i r Hs) as (v & -> & _).
    apply IH. intros j Hj. replace (S i + j) with (i + S j) by lia.
    apply Hall. lia.
Qed.




Lemma handleDefaults_present commands method entry params :
  schema_get commands method = Some entry ->
  handleDefaults commands method params
  = handleDefaults_loop method params entry (default 0 (entry_length entry)) 0 [].
Proof.
  intros Hget. unfold handleDefaults, js_in. now rewrite Hget.
Qed.





(** ** Method casing *)

(** C7.  [handleCasing] returns the method lowercased under the lowercase
    policy, uppercased under the uppercase policy, as given under the
    unchanged policy, and as given for every other policy value; it is a
    total function, so it never throws.  The constructor stores the
    lowercase policy when no casing argument is supplied. *)
Theorem handleCasing_policies (method : string) :
  handleCasing (JNum METHOD_CASING.LOWER) method = toLowerCase method /\
  handleCasing (JNum METHOD_CASING.UPPER) method = toUpperCase method /\
  handleCasing (JNum METHOD_CASING.DEFAULT) method = method /\
  (forall policy : JsVal,
      policy <> JNum METHOD_CASING.LOWER ->
      policy <> JNum METHOD_CASING.UPPER ->
      policy <> JNum METHOD_CASING.DEFAULT ->
      handleCasing policy method = method) /\
  (forall (conn : loc) (schema : Schema),
      own (new_JSONRPCClient conn schema JUndefined) !! "methodCasing"
      = Some (MVal (JNum METHOD_CASING.LOWER))).
Proof.
  repeat split; try reflexivity.
  - intros policy Hl Hu Hd. unfold handleCasing, strict_eq_num.
    destruct policy as [| |b|n| |s|items|props]; try reflexivity.
    destruct (Z.eqb_spec n METHOD_CASING.DEFAULT) as [->|_]; [congruence|].
    destruct (Z.eqb_spec n METHOD_CASING.UPPER) as [->|_]; [congruence|].
    destruct (Z.eqb_spec n METHOD_CASING.LOWER) as [->|_]; [congruence|].
    reflexivity.
  - intros conn schema. unfold new_JSONRPCClient, assign_data. simpl.
    apply lookup_insert_eq.
Qed.

Example handleCasing_Foo :
  handleCasing (JNum METHOD_CASING.LOWER) "Foo" = "foo" /\
  handleCasing (JNum METHOD_CASING.UPPER) "Foo" = "FOO" /\
  handleCasing (JNum METHOD_CASING.DEFAULT) "Foo" = "Foo" /\
  handleCasing (JStr "1") "Foo" = "Foo".
Proof. repeat split. Qed.

(** ** The transport *)

Lemma obj_get_set_same (o : list (string * JsVal)) (k : string) (v : JsVal) :
  obj_get (obj_set o k v) k = v.
Proof.
  induction o as [|[k' v'] o IH]; simpl.
  - now rewrite String.eqb_refl.
  - destruct (String.eqb k' k) eqn:Hk; simpl.
    + now rewrite String.eqb_refl.
    + now rewrite Hk.
Qed.

Lemma obj_get_set_other (o : list (string * JsVal)) (k k' : string) (v : JsVal) :
  k <> k' -> obj_get (obj_set o k v) k' = obj_get o k'.
Proof.
  intros Hne. induction o as [|[k0 v0] o IH]; simpl.
  - apply String.eqb_neq in Hne. now rewrite Hne.
  - destruct (String.eqb k0 k) eqn:Hk; simpl.
    + apply String.eqb_eq in Hk as ->. apply String.eqb_neq in Hne.
      now rewrite Hne.
    + destruct (String.eqb k0 k'); [reflexivity|assumption].
Qed.

Lemma deref_store (w : World) (l : loc) (o : list (string * JsVal)) :
  deref (store w l o) l = o.
Proof. unfold deref, store; simpl. now rewrite lookup_insert_eq. Qed.

Lemma deref_store_other (w : World) (l l' : loc) (o : list (string * JsVal)) :
  l <> l' -> deref (store w l o) l' = deref w l'.
Proof. intros Hne. unfold deref, store; simpl. now rewrite lookup_insert_ne. Qed.

Lemma store_store (w : World) (l : loc) (a b : list (string * JsVal)) :
  store (store w l a) l b = store w l b.
Proof. unfold store; simpl. f_equal. apply insert_insert_eq. Qed.

(** The executor in closed form, when the protocol option lets it choose a
    library: one [uuid()] call, the options object rewritten in place, one
    exchange. *)
Lemma request_executor_sends method params options w via :
  select_web (obj_get (deref w options) "protocol") = Ok via ->
  request_executor method params options w
  = (let data := JSON_stringify
                   (rpc_object (uuid (uuid_calls w)) (trim method) params) in
     let o := prepared (deref w options) data in
     (Ok (Pending (length (sent w))),
      record_exchange (store (tick_uuid w) options o)
        {| web := via; options_ref := options;
           options_seen := o; written := data |})).
Proof.
  intros Hsel.
  cbv beta iota zeta delta [request_executor bind JSONRPCRequest set_header get_prop
                              set_prop lift ret web_request].
  change (deref (tick_uuid w) options) with (deref w options).
  rewrite Hsel. cbv beta iota.
  rewrite !deref_store, !store_store.
  unfold prepared.
  match goal with
  | |- context [if ?c then _ else _] => destruct c eqn:Hauth
  end; cbv beta iota; rewrite ?deref_store, ?store_store; reflexivity.
Qed.

Ltac obj_simpl :=
  repeat (rewrite obj_get_set_same || rewrite obj_get_set_other by discriminate).

Ltac obj_simpl_in H :=
  repeat (rewrite obj_get_set_same in H
          || rewrite obj_get_set_other in H by discriminate).




Lemma prepared_other o data k :
  k <> "headers" -> k <> "method" -> k <> "auth" ->
  obj_get (prepared o data) k = obj_get o k.
Proof.
  intros Hh Hm Ha. unfold prepared.
  destruct (_ && _); repeat (rewrite obj_get_set_other by congruence); reflexivity.
Qed.

(** A request whose protocol option is a truthy value other than a string
    is rejected by the executor before anything is sent. *)
Lemma request_executor_rejects method params options w e :
  select_web (obj_get (deref w options) "protocol") = Throw e ->
  request_executor method params options w = (Throw e, tick_uuid w).
Proof.
  intros Hsel.
  cbv beta iota zeta delta [request_executor bind JSONRPCRequest get_prop lift].
  change (deref (tick_uuid w) options) with (deref w options).
  now rewrite Hsel.
Qed.

(** The two outcomes of [request]. *)
Lemma request_cases method params options w :
  (exists e,
      select_web (obj_get (deref w options) "protocol") = Throw e /\
      request method params options w = (Rejected e, tick_uuid w))
  \/
  (exists via,
      select_web (obj_get (deref w options) "protocol") = Ok via /\
      request method params options w
      = (let data := JSON_stringify
                       (rpc_object (uuid (uuid_calls w)) (trim method) params) in
         let o := prepared (deref w options) data in
         (Pending (length (sent w)),
          record_exchange (store (tick_uuid w) options o)
            {| web := via; options_ref := options;
               options_seen := o; written := data |}))).
Proof.
  unfold request.
  destruct (select_web (obj_get (deref w options) "protocol")) as [via|e] eqn:Hsel.
  - right. exists via. split; [reflexivity|].
    now rewrite (request_executor_sends _ _ _ _ _ Hsel).
  - left. exists e. split; [reflexivity|].
    now rewrite (request_executor_rejects _ _ _ _ _ Hsel).
Qed.


(** Successive requests carry distinct ids as long as [uuid()] never
    returns the same value twice. *)
Lemma successive_requests_distinct_ids
    (m1 m2 : string) (ps1 ps2 : list JsVal) (o1 o2 : loc)
    (w w1 w2 : World) (p1 p2 : Promise) :
  (forall a b : nat, uuid a = uuid b -> a = b) ->
  request m1 ps1 o1 w = (p1, w1) ->
  request m2 ps2 o2 w1 = (p2, w2) ->
  uuid (uuid_calls w) <> uuid (uuid_calls w1).
Proof.
  intros Hinj H1 H2 Heq. apply Hinj in Heq.
  assert (uuid_calls w1 = S (uuid_calls w)); [|lia].
  destruct (request_cases m1 ps1 o1 w) as [(e & _ & Hr) | (via & _ & Hr)];
    rewrite Hr in H1; injection H1 as <- <-; reflexivity.
Qed.


(** ** The connection resolver *)

Lemma only_enumerates_refl w : only_enumerates w w.
Proof.
  repeat split. exists []. rewrite app_nil_r. split; [reflexivity|].
  intros path Hin. inversion Hin.
Qed.

Lemma only_enumerates_trans w1 w2 w3 :
  only_enumerates w1 w2 -> only_enumerates w2 w3 -> only_enumerates w1 w3.
Proof.
  intros (Hh1 & Hs1 & Hu1 & tr1 & Ht1 & Hn1) (Hh2 & Hs2 & Hu2 & tr2 & Ht2 & Hn2).
  repeat split; try congruence.
  exists (tr1 ++ tr2). split.
  - rewrite Ht2, Ht1. now rewrite app_assoc.
  - intros path Hin. apply elem_of_app in Hin as [Hin|Hin].
    + now apply (Hn1 path).
    + now apply (Hn2 path).
Qed.

Lemma fs_isDirectory_enumerates path w :
  only_enumerates w (snd (fs_isDirectory path w)).
Proof.
  repeat split. exists [EvStat path]. split; [reflexivity|].
  intros p Hin. apply list_elem_of_singleton in Hin. discriminate.
Qed.

Lemma fs_readdir_enumerates path w :
  only_enumerates w (snd (fs_readdir path w)).
Proof.
  repeat split. exists [EvReaddir path]. split; [reflexivity|].
  intros p Hin. apply list_elem_of_singleton in Hin. discriminate.
Qed.

Lemma filter_chains_enumerates (elements : list string) :
  forall w, only_enumerates w (snd (filter_chains elements w)).
Proof.
  induction elements as [|element rest IH]; intros w.
  - apply only_enumerates_refl.
  - cbn [filter_chains]. unfold bind.
    pose proof (fs_isDirectory_enumerates (CHAIN_PATH +:+ "/" +:+ element) w) as Hstat.
    destruct (fs_isDirectory (CHAIN_PATH +:+ "/" +:+ element) w) as [[dir|e] w1];
      cbn [snd] in *; [|assumption].
    pose proof (IH w1) as Hrest.
    destruct (filter_chains rest w1) as [[kept|e] w2]; cbn [snd] in *;
      eapply only_enumerates_trans; eauto.
Qed.

Lemma getChainNames_enumerates w :
  only_enumerates w (snd (getChainNames w)).
Proof.
  unfold getChainNames, bind.
  pose proof (fs_readdir_enumerates CHAIN_PATH w) as Hdir.
  destruct (fs_readdir CHAIN_PATH w) as [[elements|e] w1]; cbn [snd] in *;
    [|assumption].
  eapply only_enumerates_trans; [eassumption|].
  apply filter_chains_enumerates.
Qed.

Lemma existsb_eqb_elem_of (name : string) (chains : list string) :
  existsb (String.eqb name) chains = true <-> name ∈ chains.
Proof.
  rewrite existsb_exists. split.
  - intros (x & Hin & Heq). apply String.eqb_eq in Heq as ->.
    now apply list_elem_of_In.
  - intros Hin. exists name. split; [now apply list_elem_of_In|].
    apply String.eqb_refl.
Qed.

(** C9.  When the requested name is not among the enumerated chain names,
    [getConnectionByName] throws the error "Invalid Chain!"; on the way it
    has listed the data folder and called [stat] on its entries but has
    read no file, and the heap, hence the connection object, is as it was.
    The [name] setter throws with it, before it assigns anything. *)
Theorem getConnectionByName_invalid
    (name : string) (conn : loc) (w w1 : World) (chains : list string) :
  getChainNames w = (Ok chains, w1) ->
  name ∉ chains ->
  getConnectionByName name conn w = (Throw InvalidChain, w1) /\
  message InvalidChain = "Invalid Chain!" /\
  heap w1 = heap w /\
  (exists tr, fs_trace w1 = fs_trace w ++ tr /\
              forall path, EvReadFile path ∉ tr) /\
  (forall this : Client,
      conn = connection (base this) ->
      set_name this name w = (Throw InvalidChain, w1)).
Proof.
  intros Hchains Hnot.
  assert (Hthrow : getConnectionByName name conn w = (Throw InvalidChain, w1)).
  { unfold getConnectionByName, bind. rewrite Hchains.
    destruct (existsb (String.eqb name) chains) eqn:Hex; [|reflexivity].
    apply existsb_eqb_elem_of in Hex. contradiction. }
  pose proof (getChainNames_enumerates w) as (Hheap & _ & _ & Htrace).
  rewrite Hchains in Hheap, Htrace. cbn [snd] in *.
  repeat split; try assumption.
  intros this ->. unfold set_name, bind. now rewrite Hthrow.
Qed.

Lemma deref_record_fs w ev l : deref (record_fs w ev) l = deref w l.
Proof. reflexivity. Qed.


(** A request that is sent has rewritten the options object in place and
    handed that same object to the HTTP library; no other object changed. *)
Lemma request_mutates method params options w n w' :
  request method params options w = (Pending n, w') ->
  deref w' options
  = prepared (deref w options)
      (JSON_stringify (rpc_object (uuid (uuid_calls w)) (trim method) params)) /\
  (exists x, sent w' = sent w ++ [x] /\
             options_ref x = options /\
             options_seen x = deref w' options) /\
  (forall l, l <> options -> heap w' !! l = heap w !! l).
Proof.
  intros Hreq.
  destruct (request_cases method params options w)
    as [(e & _ & Hr) | (via & _ & Hr)]; rewrite Hr in Hreq.
  - discriminate.
  - cbv zeta in Hreq. injection Hreq as _ <-.
    assert (Hd : forall w0 x o, deref (record_exchange (store w0 options o) x) options = o).
    { intros w0 x o. apply deref_store. }
    split; [apply Hd|]. split.
    + eexists. split; [reflexivity|]. split; [reflexivity|].
      cbn [options_seen]. now rewrite Hd.
    + intros l Hne. unfold record_exchange, store, tick_uuid; cbn [heap].
      now rewrite lookup_insert_ne by congruence.
Qed.


(** * Further properties of the code *)

(** ** Parameter defaulting, further *)

(** When the loop returns, every position it visited was served. *)
Lemma handleDefaults_loop_ok_served method params entry todo :
  forall i r r',
    handleDefaults_loop method params entry todo i r = Ok r' ->
    forall j, j < todo -> served entry params (i + j) = true.
Proof.
  induction todo as [|todo IH]; intros i r r' Hrun j Hj; [lia|].
  destruct (served entry params i) eqn:Hs.
  - destruct (loop_step_served method params entry todo i r Hs) as (v & Hstep & _).
    rewrite Hstep in Hrun. destruct j as [|j].
    + now rewrite Nat.add_0_r.
    + replace (i + S j) with (S i + j) by lia. eapply IH; [eassumption|lia].
  - rewrite (loop_step_unserved _ _ _ _ _ _ Hs) in Hrun. discriminate.
Qed.

(** X1.  Whenever [handleDefaults] returns for a method of the schema, the
    array it returns has exactly as many elements as the schema entry has
    descriptors, whatever the number of params the caller gave: missing
    ones are filled and surplus ones are dropped. *)
Theorem handleDefaults_length
    (commands : Schema) (method : string) (ds params r : list JsVal) :
  schema_get commands method = Some (EArray ds) ->
  handleDefaults commands method params = Ok r ->
  length r = length ds.
Proof.
  intros Hget Hr. rewrite (handleDefaults_present _ _ _ _ Hget) in Hr.
  apply handleDefaults_loop_ok in Hr as (vs & -> & Hlen & _). exact Hlen.
Qed.

(** X2.  When the caller's value is truthy at every position of the schema
    entry, [handleDefaults] returns the caller's values at those positions,
    unchanged and in order: the first [n] params, [n] being the length of
    the entry. *)
Theorem handleDefaults_all_truthy
    (commands : Schema) (method : string) (entry : Entry) (n : nat)
    (params : list JsVal) :
  schema_get commands method = Some entry ->
  entry_length entry = Some n ->
  (forall j, j < n -> truthy (js_index params j) = true) ->
  handleDefaults commands method params = Ok (take n params).
Proof.
  intros Hget Hlen Htruthy.
  rewrite (handleDefaults_present _ _ _ _ Hget).
  replace (default 0 (entry_length entry)) with n by (now rewrite Hlen).
  destruct (handleDefaults_loop_total method params entry n 0 []) as [r Hr].
  { intros j Hj. unfold served. cbn [Nat.add]. now rewrite Htruthy. }
  rewrite Hr. f_equal.
  apply handleDefaults_loop_ok in Hr as (vs & -> & Hvlen & Hvs). cbn [app].
  assert (Hlong : n <= length params).
  { destruct (Nat.le_gt_cases n (length params)) as [|Hgt]; [assumption|].
    specialize (Htruthy (length params) Hgt). unfold js_index in Htruthy.
    rewrite nth_overflow in Htruthy by lia. discriminate. }
  apply list_eq. intros j.
  destruct (Nat.lt_ge_cases j n) as [Hj|Hj].
  - rewrite lookup_take_lt by assumption.
    assert (Hjv : j < length vs) by lia.
    apply lookup_lt_is_Some_2 in Hjv as [v Hv]. rewrite Hv.
    specialize (Hvs j v Hv). cbn [Nat.add] in Hvs. rewrite Htruthy in Hvs by assumption.
    subst v. unfold js_index.
    assert (Hjp : j < length params) by lia.
    apply lookup_lt_is_Some_2 in Hjp as [p Hp]. rewrite Hp.
    now rewrite (nth_lookup_Some _ _ _ _ Hp).
  - rewrite lookup_take_ge by assumption.
    apply lookup_ge_None. lia.
Qed.

(** X3.  Parameter defaulting is idempotent: the array [handleDefaults]
    returns is a fixed point, so passing resolved params through
    [handleDefaults] again (as a wrapper that re-submits a call would)
    returns them unchanged and raises no error. *)
Theorem handleDefaults_idempotent
    (commands : Schema) (method : string) (params r : list JsVal) :
  handleDefaults commands method params = Ok r ->
  handleDefaults commands method r = Ok r.
Proof.
  intros Hr. unfold handleDefaults in *.
  destruct (js_in method commands); [|assumption].
  destruct (schema_get commands method) as [entry|]; [|assumption].
  set (n := default 0 (entry_length entry)) in *.
  pose proof (handleDefaults_loop_ok_served _ _ _ _ _ _ _ Hr) as Hserved.
  apply handleDefaults_loop_ok in Hr as (vs & -> & Hlen & Hvs).
  cbn [app Nat.add] in *.
  assert (Hfix : forall j, j < n ->
            exists v, vs !! j = Some v /\ js_index vs j = v /\
                      (truthy v = false ->
                       first_property (entry_at entry j) = Ok v /\
                       served entry vs j = true)).
  { intros j Hj. assert (Hjv : j < length vs) by lia.
    apply lookup_lt_is_Some_2 in Hjv as [v Hv]. exists v.
    split; [assumption|]. split.
    { unfold js_index. now apply nth_lookup_Some. }
    intros Hfalsy. specialize (Hvs j v Hv). specialize (Hserved j Hj).
    destruct (truthy (js_index params j)) eqn:Hp; [congruence|].
    split; [assumption|].
    unfold served in *. rewrite Hp in Hserved. cbn [orb] in Hserved.
    rewrite Hserved. apply orb_true_r. }
  destruct (handleDefaults_loop_total method vs entry n 0 []) as [r2 Hr2].
  { intros j Hj. cbn [Nat.add]. destruct (Hfix j Hj) as (v & _ & Hidx & Hdef).
    destruct (truthy v) eqn:Hv.
    - unfold served. now rewrite Hidx, Hv.
    - now apply Hdef. }
  rewrite Hr2. f_equal.
  apply handleDefaults_loop_ok in Hr2 as (vs2 & -> & Hlen2 & Hvs2).
  cbn [app Nat.add] in *.
  apply list_eq. intros j.
  destruct (Nat.lt_ge_cases j n) as [Hj|Hj].
  - destruct (Hfix j Hj) as (v & Hv & Hidx & Hdef). rewrite Hv.
    assert (Hjv : j < length vs2) by lia.
    apply lookup_lt_is_Some_2 in Hjv as [v2 Hv2]. rewrite Hv2. f_equal.
    specialize (Hvs2 j v2 Hv2). rewrite Hidx in Hvs2.
    destruct (truthy v) eqn:Ht; [assumption|].
    destruct (Hdef eq_refl) as [Hfp _]. congruence.
  - rewrite !lookup_ge_None_2 by lia. reflexivity.
Qed.

(** ** Method casing, further *)






(** ** The transport, further *)

Lemma obj_set_set_same (o : list (string * JsVal)) (k : string) (a b : JsVal) :
  obj_set (obj_set o k a) k b = obj_set o k b.
Proof.
  induction o as [|[k0 v0] o IH]; simpl.
  - now rewrite String.eqb_refl.
  - destruct (String.eqb k0 k) eqn:Hk; simpl.
    + now rewrite String.eqb_refl.
    + now rewrite Hk, IH.
Qed.

Lemma obj_has_set (o : list (string * JsVal)) (k k' : string) (v : JsVal) :
  obj_has (obj_set o k' v) k = obj_has o k || String.eqb k' k.
Proof.
  unfold obj_has. induction o as [|[k0 v0] o IH]; simpl.
  - now rewrite orb_false_r.
  - destruct (String.eqb_spec k0 k') as [->|Hne]; simpl.
    + destruct (String.eqb k' k), (existsb _ o); reflexivity.
    + rewrite IH. now rewrite orb_assoc.
Qed.

(** Writing a property that is already there commutes with a write of
    another property: the first write has fixed its place. *)
Lemma obj_set_comm_present (o : list (string * JsVal)) (k k' : string) (b c : JsVal) :
  k <> k' -> obj_has o k = true ->
  obj_set (obj_set o k' b) k c = obj_set (obj_set o k c) k' b.
Proof.
  intros Hne. unfold obj_has. induction o as [|[k0 v0] o IH]; simpl; [discriminate|].
  intros Hhas.
  destruct (String.eqb_spec k0 k) as [->|Hk].
  - apply String.eqb_neq in Hne. rewrite Hne. simpl.
    now rewrite String.eqb_refl, Hne.
  - simpl in Hhas. destruct (String.eqb_spec k0 k') as [->|Hk'].
    + simpl. apply not_eq_sym in Hne. apply String.eqb_neq in Hne.
      now rewrite Hne, String.eqb_refl.
    + simpl. apply String.eqb_neq in Hk, Hk'. rewrite Hk, Hk'.
      now rewrite IH.
Qed.

(** The prepared options in flat form. *)
Lemma prepared_flat o data :
  prepared o data
  = (let h := obj_set (obj_set (Object_assign_empty (obj_get o "headers"))
                               "content-type" (JStr "application/json"))
                      "content-length" (JNum (Z.of_nat (String.length data))) in
     let o4 := obj_set (obj_set o "headers" (JObj h)) "method" (JStr "POST") in
     if truthy (obj_get o "user") && truthy (obj_get o "pass")
     then obj_set o4 "auth"
            (JStr (to_string (obj_get o "user") +:+ ":" +:+ to_string (obj_get o "pass")))
     else o4).
Proof.
  unfold prepared. cbv zeta. obj_simpl. cbn [props_of].
  now rewrite !obj_set_set_same.
Qed.

Lemma prepared_idempotent o d1 d2 :
  prepared (prepared o d1) d2 = prepared o d2.
Proof.
  rewrite (prepared_flat (prepared o d1) d2).
  rewrite !(prepared_other o d1 "user"), !(prepared_other o d1 "pass")
    by discriminate.
  rewrite (prepared_flat o d2).
  rewrite (prepared_flat o d1) in *. cbv zeta in *.
  set (A := Object_assign_empty (obj_get o "headers")) in *.
  set (ct := JStr "application/json") in *.
  destruct (truthy (obj_get o "user") && truthy (obj_get o "pass")).
  - obj_simpl. cbn [Object_assign_empty].
    rewrite (obj_set_comm_present _ "headers" "auth") by
      (try discriminate; rewrite !obj_has_set; cbn; now rewrite orb_true_r).
    rewrite (obj_set_comm_present _ "headers" "method") by
      (try discriminate; rewrite !obj_has_set; cbn; now rewrite orb_true_r).
    rewrite obj_set_set_same.
    rewrite (obj_set_comm_present _ "method" "auth") by
      (try discriminate; rewrite !obj_has_set; cbn; now rewrite orb_true_r).
    rewrite !obj_set_set_same.
    rewrite (obj_set_comm_present _ "content-type" "content-length") by
      (try discriminate; rewrite !obj_has_set; cbn; now rewrite orb_true_r).
    now rewrite !obj_set_set_same.
  - obj_simpl. cbn [Object_assign_empty].
    rewrite (obj_set_comm_present _ "headers" "method") by
      (try discriminate; rewrite !obj_has_set; cbn; now rewrite orb_true_r).
    rewrite !obj_set_set_same.
    rewrite (obj_set_comm_present _ "content-type" "content-length") by
      (try discriminate; rewrite !obj_has_set; cbn; now rewrite orb_true_r).
    now rewrite !obj_set_set_same.
Qed.

(** X5.  When the [protocol] option is a truthy value that is not a string,
    [request] returns a promise rejected with a type error; nothing is
    sent and no object of the heap is changed (the options object is left
    exactly as the caller gave it), though one [uuid()] call was made. *)
Theorem request_rejects_non_string_protocol
    (method : string) (params : list JsVal) (options : loc) (w : World) :
  truthy (obj_get (deref w options) "protocol") = true ->
  (forall s, obj_get (deref w options) "protocol" <> JStr s) ->
  exists w',
    request method params options w
    = (Rejected (TypeError "options.protocol.trim is not a function"), w') /\
    heap w' = heap w /\ sent w' = sent w /\ fs_trace w' = fs_trace w /\
    uuid_calls w' = S (uuid_calls w).
Proof.
  intros Htruthy Hnot.
  destruct (request_cases method params options w)
    as [(e & Hsel & Hr) | (via & Hsel & _)].
  - exists (tick_uuid w). rewrite Hr. unfold select_web in Hsel.
    rewrite Htruthy in Hsel.
    destruct (obj_get (deref w options) "protocol"); try discriminate;
      injection Hsel as <-; repeat split.
  - unfold select_web in Hsel. rewrite Htruthy in Hsel.
    destruct (obj_get (deref w options) "protocol") eqn:Hp; try discriminate.
    exfalso. now apply (Hnot s).
Qed.

(** X6.  The rewriting of the options object does not accumulate: after two
    requests sent through the same options object, the object is exactly
    what the second request alone would have made of the original one. *)
Theorem request_twice_same_options
    (m1 m2 : string) (ps1 ps2 : list JsVal) (options : loc)
    (w w1 w2 : World) (n1 n2 : nat) :
  request m1 ps1 options w = (Pending n1, w1) ->
  request m2 ps2 options w1 = (Pending n2, w2) ->
  deref w2 options
  = prepared (deref w options)
      (JSON_stringify (rpc_object (uuid (uuid_calls w1)) (trim m2) ps2)).
Proof.
  intros H1 H2.
  apply request_mutates in H1 as (Hd1 & _ & _).
  apply request_mutates in H2 as (Hd2 & _ & _).
  rewrite Hd2, Hd1. apply prepared_idempotent.
Qed.

Lemma prepared_other_headers o data h k :
  obj_get (prepared o data) "headers" = JObj h ->
  k <> "content-type" -> k <> "content-length" ->
  obj_get h k = obj_get (Object_assign_empty (obj_get o "headers")) k.
Proof.
  intros Hh Hct Hcl. rewrite prepared_flat in Hh. cbv zeta in Hh.
  destruct (_ && _) in Hh; obj_simpl_in Hh; injection Hh as <-;
    now rewrite !obj_get_set_other by congruence.
Qed.

(** X7.  A request that is sent leaves every option other than [headers],
    [method] and [auth] as the caller gave it ([host], [port], [user],
    [pass], [protocol] and any extra option), and keeps every header of
    the caller's [headers] object other than [content-type] and
    [content-length]. *)
Theorem request_preserves_other_options
    (method : string) (params : list JsVal) (options : loc)
    (w w' : World) (n : nat) :
  request method params options w = (Pending n, w') ->
  (forall k, k <> "headers" -> k <> "method" -> k <> "auth" ->
             obj_get (deref w' options) k = obj_get (deref w options) k) /\
  (forall h0 h k,
      obj_get (deref w options) "headers" = JObj h0 ->
      obj_get (deref w' options) "headers" = JObj h ->
      k <> "content-type" -> k <> "content-length" ->
      obj_get h k = obj_get h0 k).
Proof.
  intros Hreq. apply request_mutates in Hreq as (Hd & _ & _). rewrite Hd. split.
  - intros k Hh Hm Ha. now apply prepared_other.
  - intros h0 h k Hh0 Hh Hct Hcl.
    rewrite (prepared_other_headers _ _ _ _ Hh Hct Hcl). now rewrite Hh0.
Qed.

(** X8.  A call of [call] makes at most one exchange.  Either it throws and
    the world is untouched; or the promise is rejected before anything is
    sent; or exactly one request is written, to the client's own connection
    object, whose body carries the method after casing and trimming and
    the params that [handleDefaults] returned. *)
Theorem call_single_exchange
    (this : JSONRPCClient) (method : string) (params : list JsVal)
    (w w' : World) (r : Exc Promise) :
  call this method params w = (r, w') ->
  (exists e, r = Throw e /\ w' = w) \/
  (exists e, r = Ok (Rejected e) /\ sent w' = sent w) \/
  (exists x ps,
      r = Ok (Pending (length (sent w))) /\
      sent w' = sent w ++ [x] /\
      handleDefaults (commands this) method params = Ok ps /\
      written x
      = JSON_stringify
          (rpc_object (uuid (uuid_calls w))
                      (trim (handleCasing (methodCasing this) method)) ps) /\
      options_ref x = connection this).
Proof.
  unfold call. intros Hcall.
  destruct (handleDefaults (commands this) method params) as [ps|e].
  - destruct (request_cases (handleCasing (methodCasing this) method) ps
                (connection this) w) as [(e & _ & Hr) | (via & _ & Hr)];
      rewrite Hr in Hcall; cbv zeta in Hcall; injection Hcall as <- <-.
    + right. left. exists e. split; reflexivity.
    + right. right. eexists _, ps. repeat split.
  - left. exists e. injection Hcall as <- <-. split; reflexivity.
Qed.

(** ** The response, further *)

Lemma str_app_nil_r (s : string) : s +:+ "" = s.
Proof.
  induction s as [|c s IH]; [reflexivity|].
  change (String c (s +:+ "") = String c s). now rewrite IH.
Qed.




(** X10.  The promise is left unsettled exactly when the body had to be
    parsed (status 200, or a [content-type] of "application/json") and is
    not valid JSON: [JSON.parse] then throws inside the handler and neither
    [resolve] nor [reject] is called. *)
Theorem on_end_unsettled_iff (res : Response) :
  on_end res = Unsettled
  <-> (statusCode res = 200%Z
       \/ assoc (headers res) "content-type" = Some "application/json")
      /\ JSON_parse (fold_left String.append (chunks res) "") = None.
Proof.
  clear JSON_stringify uuid CHAIN_PATH fs commands_js.
  unfold on_end.
  destruct (Z.eqb_spec (statusCode res) 200) as [Hs|Hs].
  - destruct (JSON_parse _); split; try discriminate; intuition congruence.
  - destruct (bool_decide_reflect
                (assoc (headers res) "content-type" = Some "application/json"))
      as [Hct|Hct].
    + destruct (JSON_parse _); split; try discriminate; intuition congruence.
    + split; [discriminate|]. intros [[?|?] _]; contradiction.
Qed.

(** ** The connection resolver, further *)

Lemma filter_chains_ok (elements : list string) :
  (forall e, e ∈ elements ->
             exists dir, isDirectory fs (CHAIN_PATH +:+ "/" +:+ e) = Ok dir) ->
  forall w,
    filter_chains elements w
    = (Ok (List.filter is_chain_dir elements),
       fold_left record_fs
         (map (fun e => EvStat (CHAIN_PATH +:+ "/" +:+ e)) elements) w).
Proof.
  induction elements as [|element rest IH]; intros Hstat w; [reflexivity|].
  destruct (Hstat element) as [dir Hdir]; [left|].
  assert (Hkeep : is_chain_dir element
                  = dir && negb (startsWith element ".")
                        && negb (String.eqb element "multichaind")).
  { unfold is_chain_dir. now rewrite Hdir. }
  cbn [filter_chains map fold_left List.filter].
  unfold bind, fs_isDirectory at 1. rewrite Hdir.
  rewrite IH by (intros e He; apply Hstat; now right).
  unfold ret. rewrite Hkeep.
  now destruct (dir && _ && _).
Qed.

Lemma filter_chains_throws (pre : list string) (element : string)
    (post : list string) (err : JsError) :
  (forall e, e ∈ pre ->
             exists dir, isDirectory fs (CHAIN_PATH +:+ "/" +:+ e) = Ok dir) ->
  isDirectory fs (CHAIN_PATH +:+ "/" +:+ element) = Throw err ->
  forall w,
    filter_chains (pre ++ element :: post) w
    = (Throw err,
       fold_left record_fs
         (map (fun e => EvStat (CHAIN_PATH +:+ "/" +:+ e)) (pre ++ [element])) w).
Proof.
  intros Hstat Hbad. induction pre as [|e pre IH]; intros w.
  - cbn [app filter_chains map fold_left]. unfold bind, fs_isDirectory.
    now rewrite Hbad.
  - destruct (Hstat e) as [dir Hdir]; [left|].
    cbn [app filter_chains map fold_left].
    unfold bind, fs_isDirectory at 1. rewrite Hdir.
    now rewrite IH by (intros x Hx; apply Hstat; now right).
Qed.

(** X11.  When the data folder can be listed and [stat] succeeds on each of
    its entries, [getChainNames] returns, in the order of the listing,
    exactly the entries that are directories, do not start with a dot and
    are not named "multichaind"; it has listed the folder once and called
    [stat] once on every entry, hidden ones included. *)
Theorem getChainNames_lists_chain_directories
    (elements : list string) (w : World) :
  readdirSync fs CHAIN_PATH = Ok elements ->
  (forall e, e ∈ elements ->
             exists dir, isDirectory fs (CHAIN_PATH +:+ "/" +:+ e) = Ok dir) ->
  getChainNames w
  = (Ok (List.filter is_chain_dir elements),
     fold_left record_fs
       (EvReaddir CHAIN_PATH
        :: map (fun e => EvStat (CHAIN_PATH +:+ "/" +:+ e)) elements) w) /\
  forall name,
    name ∈ List.filter is_chain_dir elements
    <-> (name ∈ elements /\
         isDirectory fs (CHAIN_PATH +:+ "/" +:+ name) = Ok true /\
         startsWith name "." = false /\
         name <> "multichaind").
Proof.
  intros Hdir Hstat. split.
  - unfold getChainNames, bind, fs_readdir. rewrite Hdir.
    now rewrite filter_chains_ok.
  - intros name. rewrite list_elem_of_In, filter_In, <- list_elem_of_In.
    unfold is_chain_dir. split.
    + intros [Hin Hkeep]. split; [assumption|].
      destruct (isDirectory fs (CHAIN_PATH +:+ "/" +:+ name)) as [dir|];
        [|discriminate].
      apply andb_true_iff in Hkeep as [Hkeep Hm].
      apply andb_true_iff in Hkeep as [-> Hdot].
      apply negb_true_iff in Hdot, Hm. apply String.eqb_neq in Hm.
      repeat split; assumption.
    + intros (Hin & -> & Hdot & Hm). split; [assumption|].
      apply String.eqb_neq in Hm. now rewrite Hdot, Hm.
Qed.

(** X12.  A failure of the file system while the chains are enumerated is
    the failure of the whole resolution.  When the data folder cannot be
    listed, or [stat] throws on one of its entries (even a hidden one that
    the filter would drop), [getChainNames] throws that error, no later
    entry is examined, and [getConnectionByName] throws it for every name:
    it does not report "Invalid Chain!" and reads no configuration. *)
Theorem getChainNames_propagates_fs_error
    (name : string) (conn : loc) (w : World) (err : JsError) :
  (readdirSync fs CHAIN_PATH = Throw err ->
   getChainNames w = (Throw err, record_fs w (EvReaddir CHAIN_PATH)) /\
   getConnectionByName name conn w
   = (Throw err, record_fs w (EvReaddir CHAIN_PATH))) /\
  (forall pre element post,
      readdirSync fs CHAIN_PATH = Ok (pre ++ element :: post) ->
      (forall e, e ∈ pre ->
                 exists dir, isDirectory fs (CHAIN_PATH +:+ "/" +:+ e) = Ok dir) ->
      isDirectory fs (CHAIN_PATH +:+ "/" +:+ element) = Throw err ->
      let w' := fold_left record_fs
                  (EvReaddir CHAIN_PATH
                   :: map (fun e => EvStat (CHAIN_PATH +:+ "/" +:+ e))
                          (pre ++ [element])) w in
      getChainNames w = (Throw err, w') /\
      getConnectionByName name conn w = (Throw err, w')).
Proof.
  split.
  - intros Hdir.
    assert (Hnames : getChainNames w = (Throw err, record_fs w (EvReaddir CHAIN_PATH))).
    { unfold getChainNames, bind, fs_readdir. now rewrite Hdir. }
    split; [assumption|]. unfold getConnectionByName, bind. now rewrite Hnames.
  - intros pre element post Hdir Hstat Hbad w'.
    assert (Hnames : getChainNames w = (Throw err, w')).
    { unfold getChainNames, bind, fs_readdir. rewrite Hdir.
      now rewrite (filter_chains_throws pre element post err Hstat Hbad). }
    split; [assumption|]. unfold getConnectionByName, bind. now rewrite Hnames.
Qed.

(** X13.  For a name among the enumerated chains whose [multichain.conf]
    has at least two lines and whose [params.dat] has a line that starts
    with "default-rpc-port" and holds an "=", [getConnectionByName] returns
    the object it was given with [user] read from the first line of the
    configuration, [pass] from the second and [port] from that line of the
    parameter file; every other option of the object is unchanged, and the
    two files are the only ones read, in that order. *)
Theorem getConnectionByName_resolves
    (name : string) (conn : loc) (w w1 : World) (chains : list string)
    (text line1 text' pline v : string) :
  getChainNames w = (Ok chains, w1) ->
  name ∈ chains ->
  readFileSync fs (CHAIN_PATH +:+ "/" +:+ name +:+ "/multichain.conf") = Ok text ->
  nth_error (trimmed_lines text) 1 = Some line1 ->
  readFileSync fs (CHAIN_PATH +:+ "/" +:+ name +:+ "/params.dat") = Ok text' ->
  find (fun element => startsWith element "default-rpc-port") (trimmed_lines text')
  = Some pline ->
  after_equals pline = JStr v ->
  exists w',
    getConnectionByName name conn w = (Ok conn, w') /\
    obj_get (deref w' conn) "user" = after_equals (nth 0 (trimmed_lines text) "") /\
    obj_get (deref w' conn) "pass" = after_equals line1 /\
    obj_get (deref w' conn) "port" = first_token v /\
    (forall k, k <> "user" -> k <> "pass" -> k <> "port" ->
               obj_get (deref w' conn) k = obj_get (deref w conn) k) /\
    fs_trace w'
    = fs_trace w1
      ++ [EvReadFile (CHAIN_PATH +:+ "/" +:+ name +:+ "/multichain.conf");
          EvReadFile (CHAIN_PATH +:+ "/" +:+ name +:+ "/params.dat")].
Proof.
  intros Hnames Hin Hconf Hline1 Hparams Hfind Hport.
  pose proof (getChainNames_enumerates w) as (Hheap & _).
  rewrite Hnames in Hheap. cbn [snd] in Hheap.
  assert (Hd : deref w1 conn = deref w conn).
  { unfold deref. now rewrite Hheap. }
  apply existsb_eqb_elem_of in Hin.
  eexists. split.
  - unfold getConnectionByName.
    cbv beta iota zeta delta [bind set_prop fs_readFile ret throw].
    rewrite Hnames, Hin, Hconf, Hline1, Hparams, Hfind, Hport. reflexivity.
  - repeat (rewrite deref_store || rewrite deref_record_fs). rewrite Hd.
    split; [now obj_simpl|]. split; [now obj_simpl|]. split; [now obj_simpl|].
    split.
    + intros k Hu Hp Hpo. now rewrite !obj_get_set_other by congruence.
    + unfold store, record_fs; cbn [fs_trace]. now rewrite <- app_assoc.
Qed.

(** X14.  The resolution is not atomic.  When the port cannot be found,
    because [params.dat] cannot be read or has no line that starts with
    "default-rpc-port", [getConnectionByName] throws, but [user] and [pass]
    have already been assigned on the connection object, which keeps its
    old [port]; the [name] setter throws with it, so the client keeps its
    former name next to the new credentials. *)
Theorem getConnectionByName_partial_on_missing_port
    (name : string) (conn : loc) (w w1 : World) (chains : list string)
    (text line1 : string) :
  getChainNames w = (Ok chains, w1) ->
  name ∈ chains ->
  readFileSync fs (CHAIN_PATH +:+ "/" +:+ name +:+ "/multichain.conf") = Ok text ->
  nth_error (trimmed_lines text) 1 = Some line1 ->
  ((exists err,
       readFileSync fs (CHAIN_PATH +:+ "/" +:+ name +:+ "/params.dat") = Throw err)
   \/ (exists text',
          readFileSync fs (CHAIN_PATH +:+ "/" +:+ name +:+ "/params.dat") = Ok text' /\
          find (fun element => startsWith element "default-rpc-port")
               (trimmed_lines text') = None)) ->
  exists err w',
    getConnectionByName name conn w = (Throw err, w') /\
    obj_get (deref w' conn) "user" = after_equals (nth 0 (trimmed_lines text) "") /\
    obj_get (deref w' conn) "pass" = after_equals line1 /\
    obj_get (deref w' conn) "port" = obj_get (deref w conn) "port" /\
    (forall this : Client,
        conn = connection (base this) ->
        set_name this name w = (Throw err, w')).
Proof.
  intros Hnames Hin Hconf Hline1 Hport.
  pose proof (getChainNames_enumerates w) as (Hheap & _).
  rewrite Hnames in Hheap. cbn [snd] in Hheap.
  assert (Hd : deref w1 conn = deref w conn).
  { unfold deref. now rewrite Hheap. }
  apply existsb_eqb_elem_of in Hin.
  assert (Hrun : exists err w',
             getConnectionByName name conn w = (Throw err, w') /\
             deref w' conn
             = obj_set (obj_set (deref w conn) "user"
                                (after_equals (nth 0 (trimmed_lines text) "")))
                       "pass" (after_equals line1)).
  { unfold getConnectionByName.
    cbv beta iota zeta delta [bind set_prop fs_readFile ret throw].
    rewrite Hnames, Hin, Hconf, Hline1.
    destruct Hport as [(err & Hparams) | (text' & Hparams & Hfind)].
    - rewrite Hparams. eexists _, _. split; [reflexivity|].
      repeat (rewrite deref_store || rewrite deref_record_fs). now rewrite Hd.
    - rewrite Hparams, Hfind. eexists _, _. split; [reflexivity|].
      repeat (rewrite deref_store || rewrite deref_record_fs). now rewrite Hd. }
  destruct Hrun as (err & w' & Hthrow & Hobj).
  exists err, w'. split; [assumption|]. rewrite Hobj.
  split; [now obj_simpl|]. split; [now obj_simpl|]. split; [now obj_simpl|].
  intros this ->. unfold set_name, bind. now rewrite Hthrow.
Qed.

(** ** Reading the configuration lines *)

Lemma rev_app_rev_app (a : string) :
  forall b c, String.rev_app (String.rev_app a b) c = String.rev_app b (a +:+ c).
Proof.
  induction a as [|x a IH]; intros b c; [reflexivity|].
  change (String x a +:+ c) with (String x (a +:+ c)).
  cbn [String.rev_app]. now rewrite IH.
Qed.

Lemma rev_rev_app (a : string) : String.rev (String.rev_app a "") = a.
Proof.
  unfold String.rev. rewrite rev_app_rev_app. cbn [String.rev_app].
  apply str_app_nil_r.
Qed.

Lemma split_go_no_sep (sep : ascii) (a : string) :
  no_char sep a = true ->
  forall rest cur,
    split_go sep (a +:+ rest) cur = split_go sep rest (String.rev_app a cur).
Proof.
  unfold no_char. induction a as [|x a IH]; intros Hno rest cur; [reflexivity|].
  cbn [string_chars forallb] in Hno. apply andb_true_iff in Hno as [Hx Ha].
  apply negb_true_iff in Hx.
  change (String x a +:+ rest) with (String x (a +:+ rest)).
  cbn [split_go String.rev_app]. rewrite Hx. now apply IH.
Qed.

Lemma js_split_head (sep : ascii) (a rest : string) :
  no_char sep a = true ->
  js_split sep (a +:+ String sep rest) = a :: js_split sep rest.
Proof.
  intros Hno. unfold js_split. rewrite split_go_no_sep by assumption.
  cbn [split_go]. rewrite Ascii.eqb_refl. now rewrite rev_rev_app.
Qed.

Lemma js_split_no_sep (sep : ascii) (a : string) :
  no_char sep a = true -> js_split sep a = [a].
Proof.
  intros Hno. unfold js_split. rewrite <- (str_app_nil_r a) at 1.
  rewrite split_go_no_sep by assumption.
  cbn [split_go]. now rewrite rev_rev_app.
Qed.

(** X15.  The value read from a configuration line is the text between the
    first and the second "=".  For a key without "=": a line [key=value]
    gives [value] when the value has no "="; a line [key=value=tail] gives
    [value] only, so a password that contains "=" is cut at it; and a line
    without "=" gives [undefined]. *)
Theorem after_equals_key_value (key value : string) :
  no_char equals_sign key = true ->
  no_char equals_sign value = true ->
  after_equals (key +:+ "=" +:+ value) = JStr value /\
  (forall tail, after_equals (key +:+ "=" +:+ value +:+ "=" +:+ tail) = JStr value) /\
  after_equals key = JUndefined.
Proof.
  intros Hk Hv. unfold after_equals. split; [|split].
  - change (key +:+ "=" +:+ value) with (key +:+ String equals_sign value).
    now rewrite js_split_head, js_split_no_sep.
  - intros tail.
    change (key +:+ "=" +:+ value +:+ "=" +:+ tail)
      with (key +:+ String equals_sign (value +:+ String equals_sign tail)).
    now rewrite !js_split_head.
  - now rewrite js_split_no_sep.
Qed.

Lemma trimStart_ws_prefix (pad s : string) :
  forallb is_ws (string_chars pad) = true ->
  trimStart (pad +:+ s) = trimStart s.
Proof.
  induction pad as [|c pad IH]; intros Hws; [reflexivity|].
  cbn [string_chars forallb] in Hws. apply andb_true_iff in Hws as [Hc Hpad].
  change (String c pad +:+ s) with (String c (pad +:+ s)).
  cbn [trimStart]. rewrite Hc. now apply IH.
Qed.

Lemma trimEnd_cons_not_ws (x : ascii) (s : string) :
  is_ws x = false -> trimEnd (String x s) = String x (trimEnd s).
Proof. intros Hx. cbn [trimEnd]. rewrite Hx. now destruct (trimEnd s). Qed.

Lemma trimEnd_word (t u : string) :
  forallb (fun x => negb (is_ws x)) (string_chars t) = true ->
  trimEnd (t +:+ u) = t +:+ trimEnd u.
Proof.
  induction t as [|x t IH]; intros Hno; [reflexivity|].
  cbn [string_chars forallb] in Hno. apply andb_true_iff in Hno as [Hx Ht].
  apply negb_true_iff in Hx.
  change (String x t +:+ u) with (String x (t +:+ u)).
  rewrite trimEnd_cons_not_ws by assumption. now rewrite IH.
Qed.

Lemma trimEnd_ws_cons (c : ascii) (rest : string) :
  is_ws c = true ->
  trimEnd (String c rest) = "" \/ exists r, trimEnd (String c rest) = String c r.
Proof.
  intros Hc. cbn [trimEnd]. rewrite Hc. destruct (trimEnd rest); eauto.
Qed.

Lemma split_ws_go_word (t : string) :
  forallb (fun x => negb (is_ws x)) (string_chars t) = true ->
  forall u cur in_sep,
    t <> "" \/ in_sep = false ->
    split_ws_go (t +:+ u) cur in_sep = split_ws_go u (String.rev_app t cur) false.
Proof.
  induction t as [|x t IH]; intros Hno u cur in_sep Hstart.
  - destruct Hstart as [Hne| ->]; [congruence|reflexivity].
  - cbn [string_chars forallb] in Hno. apply andb_true_iff in Hno as [Hx Ht].
    apply negb_true_iff in Hx.
    change (String x t +:+ u) with (String x (t +:+ u)).
    cbn [split_ws_go String.rev_app]. rewrite Hx.
    apply IH; [assumption|now right].
Qed.

(** X16.  The port is the first white-space-delimited word after the "=":
    for a nonempty word without white space, white space before it is
    skipped, and whatever follows the first white space after it (such as a
    trailing comment) is ignored. *)
Theorem first_token_first_word (pad word : string) :
  forallb is_ws (string_chars pad) = true ->
  word <> "" ->
  forallb (fun x => negb (is_ws x)) (string_chars word) = true ->
  first_token (pad +:+ word) = JStr word /\
  forall c rest, is_ws c = true ->
                 first_token (pad +:+ word +:+ String c rest) = JStr word.
Proof.
  intros Hpad Hne Hword.
  assert (Hstart : forall u, trimStart (word +:+ u) = word +:+ u).
  { intros u. destruct word as [|x t]; [congruence|].
    cbn [string_chars forallb] in Hword. apply andb_true_iff in Hword as [Hx _].
    apply negb_true_iff in Hx.
    change (String x t +:+ u) with (String x (t +:+ u)).
    cbn [trimStart]. now rewrite Hx. }
  assert (Htok : forall u,
             u = "" \/ (exists c r, is_ws c = true /\ u = String c r) ->
             match split_ws (word +:+ u) with
             | tok :: _ => JStr tok
             | [] => JUndefined
             end = JStr word).
  { intros u Hu. unfold split_ws.
    rewrite split_ws_go_word by (assumption || now left).
    destruct Hu as [->|(c & r & Hc & ->)]; cbn [split_ws_go].
    - now rewrite rev_rev_app.
    - rewrite Hc. now rewrite rev_rev_app. }
  unfold first_token, trim. split.
  - replace (pad +:+ word) with (pad +:+ word +:+ "")
      by (now rewrite str_app_nil_r).
    rewrite trimStart_ws_prefix by assumption.
    rewrite Hstart, trimEnd_word by assumption. cbn [trimEnd].
    apply Htok. now left.
  - intros c rest Hc.
    rewrite trimStart_ws_prefix by assumption.
    rewrite Hstart, trimEnd_word by assumption.
    apply Htok.
    destruct (trimEnd_ws_cons c rest Hc) as [->|(r & ->)]; [now left|].
    right. eauto.
Qed.

(** ** The Multichain client *)


(** X18.  Each request draws its [id] from its own [uuid()] call.  If
    [uuid()] never returns the same value twice, the body of a request
    carries an [id] different from the one of every request sent later. *)
Theorem request_id_differs_from_later
    (m1 m2 : string) (ps1 ps2 : list JsVal) (o1 o2 : loc)
    (w w1 w2 w3 : World) (n1 n2 : nat) :
  (forall a b : nat, uuid a = uuid b -> a = b) ->
  request m1 ps1 o1 w = (Pending n1, w1) ->
  uuid_calls w1 <= uuid_calls w2 ->
  request m2 ps2 o2 w2 = (Pending n2, w3) ->
  exists x1 x2 id1 id2,
    sent w1 = sent w ++ [x1] /\
    sent w3 = sent w2 ++ [x2] /\
    written x1 = JSON_stringify (rpc_object id1 (trim m1) ps1) /\
    written x2 = JSON_stringify (rpc_object id2 (trim m2) ps2) /\
    id1 <> id2.
Proof.
  intros Hinj H1 Hlater H2.
  destruct (request_cases m1 ps1 o1 w) as [(e & _ & Hr) | (via1 & _ & Hr)];
    rewrite Hr in H1; [discriminate|]. cbv zeta in H1. injection H1 as _ <-.
  destruct (request_cases m2 ps2 o2 w2) as [(e & _ & Hr2) | (via2 & _ & Hr2)];
    rewrite Hr2 in H2; [discriminate|]. cbv zeta in H2. injection H2 as _ <-.
  eexists _, _, (uuid (uuid_calls w)), (uuid (uuid_calls w2)).
  split; [reflexivity|]. split; [reflexivity|].
  split; [reflexivity|]. split; [reflexivity|].
  intros Heq. apply Hinj in Heq. cbn [uuid_calls record_exchange store tick_uuid] in Hlater.
  lia.
Qed.

End Program.

(** ** The [commands] setter *)

Lemma bound_at_delete_property this k' k :
  bound_at (delete_property this k') k
  = if decide (k = k') then None else bound_at this k.
Proof.
  unfold bound_at, delete_property.
  destruct (String.eqb_spec k' "_commands") as [->|Hk'];
    destruct (String.eqb_spec k "_commands") as [->|Hk];
    cbn [_commands own]; case_decide; try congruence; try reflexivity.
  - subst k'. now rewrite lookup_delete_eq.
  - now rewrite lookup_delete_ne by congruence.
Qed.

Lemma bound_at_fold_delete (ks : list string) :
  forall this k,
    bound_at (fold_left delete_property ks this) k
    = if decide (k ∈ ks) then None else bound_at this k.
Proof.
  induction ks as [|k' ks IH]; intros this k; cbn [fold_left].
  - case_decide as Hin; [inversion Hin|reflexivity].
  - rewrite IH, bound_at_delete_property.
    repeat case_decide; try reflexivity; subst;
      rewrite ?elem_of_cons in *; intuition congruence.
Qed.

Lemma own_fold_delete_class_proto (ks : list string) :
  forall this, class_proto (fold_left delete_property ks this) = class_proto this.
Proof.
  induction ks as [|k' ks IH]; intros this; cbn [fold_left]; [reflexivity|].
  rewrite IH. unfold delete_property. now destruct (String.eqb k' "_commands").
Qed.

(** Binding a key other than [commands]. *)
Lemma bound_at_assign_function this k' k :
  k' <> "commands" ->
  bound_at (assign_function this k') k
  = if decide (k = k' /\ k <> "__proto__") then Some k else bound_at this k.
Proof.
  intros Hc. unfold assign_function.
  destruct (String.eqb_spec k' "__proto__") as [->|Hp].
  { case_decide as Hd; [|reflexivity]. destruct Hd; congruence. }
  destruct (String.eqb_spec k' "commands") as [->|_]; [congruence|].
  cbn [andb].
  destruct (decide (k = k')) as [->|Hne].
  - rewrite decide_True by (split; [reflexivity|assumption]).
    destruct (String.eqb_spec k' "_commands") as [->|Hu]; unfold bound_at;
      cbn [_commands own].
    + reflexivity.
    + apply String.eqb_neq in Hu. rewrite Hu. now rewrite lookup_insert_eq.
  - rewrite decide_False by (intros [? _]; congruence).
    destruct (String.eqb_spec k' "_commands") as [->|Hu]; unfold bound_at;
      cbn [_commands own].
    + assert (Hk : String.eqb k "_commands" = false)
        by (apply String.eqb_neq; congruence).
      now rewrite Hk.
    + destruct (String.eqb k "_commands"); [reflexivity|].
      now rewrite lookup_insert_ne by congruence.
Qed.

Lemma bound_at_fold_assign (ks : list string) :
  "commands" ∉ ks ->
  forall this k,
    bound_at (fold_left assign_function ks this) k
    = if decide (k ∈ ks /\ k <> "__proto__") then Some k else bound_at this k.
Proof.
  induction ks as [|k' ks IH]; intros Hc this k; cbn [fold_left].
  - case_decide as Hd; [|reflexivity]. destruct Hd as [Hin _]. inversion Hin.
  - rewrite not_elem_of_cons in Hc. destruct Hc as [Hc Hcs].
    rewrite IH by assumption.
    rewrite bound_at_assign_function by congruence.
    repeat case_decide; try reflexivity; exfalso;
      rewrite ?elem_of_cons in *; intuition congruence.
Qed.

(** Binding keys other than [commands] and [_commands] leaves the stored
    schema alone. *)
Lemma commands_fold_assign (ks : list string) :
  "commands" ∉ ks -> "_commands" ∉ ks ->
  forall this, _commands (fold_left assign_function ks this) = _commands this.
Proof.
  induction ks as [|k' ks IH]; intros Hc Hu this; cbn [fold_left]; [reflexivity|].
  rewrite not_elem_of_cons in Hc, Hu. destruct Hc as [Hc Hcs], Hu as [Hu Hus].
  rewrite IH by assumption. unfold assign_function.
  destruct (String.eqb_spec k' "__proto__"); [reflexivity|].
  destruct (String.eqb_spec k' "commands"); [congruence|]. cbn [andb].
  destruct (String.eqb_spec k' "_commands"); [congruence|]. reflexivity.
Qed.

(** The bound functions after an assignment of a schema without the key
    [commands], in closed form. *)
Lemma bound_at_set_commands this value k :
  "commands" ∉ schema_keys value ->
  bound_at (set_commands this value) k
  = if decide (k ∈ schema_keys value /\ k <> "__proto__") then Some k
    else if decide (k = "_commands") then None
    else if decide (k ∈ for_in_keys (_commands this)) then None
    else bound_at this k.
Proof.
  intros Hc. unfold set_commands, set_commands_with. cbn [for_in_keys].
  rewrite bound_at_fold_assign by assumption.
  case_decide as Hd; [reflexivity|].
  pose proof (bound_at_fold_delete (for_in_keys (_commands this)) this k) as Hdel.
  unfold bound_at in *. cbn [_commands own].
  destruct (String.eqb_spec k "_commands") as [->|Hk].
  - now rewrite decide_True by reflexivity.
  - rewrite decide_False by assumption. exact Hdel.
Qed.

Lemma class_proto_assign_function this k' :
  k' <> "__proto__" ->
  class_proto (assign_function this k') = class_proto this.
Proof.
  intros Hp. unfold assign_function.
  destruct (String.eqb_spec k' "__proto__"); [congruence|].
  destruct (String.eqb k' "commands" && class_proto this).
  - unfold set_commands_with. cbn [for_in_keys fold_left class_proto].
    apply own_fold_delete_class_proto.
  - now destruct (String.eqb k' "_commands").
Qed.

(** Once [_commands] holds a bound function, binding more keys keeps one
    there. *)
Lemma commands_bound_fold_assign (ks : list string) :
  forall this,
    (exists c, _commands this = Some (SBound c)) ->
    exists c, _commands (fold_left assign_function ks this) = Some (SBound c).
Proof.
  induction ks as [|k' ks IH]; intros this Hb; cbn [fold_left]; [assumption|].
  apply IH. unfold assign_function.
  destruct (String.eqb k' "__proto__"); [assumption|].
  destruct (String.eqb k' "commands" && class_proto this).
  - unfold set_commands_with. cbn [for_in_keys fold_left _commands]. eauto.
  - destruct (String.eqb k' "_commands"); cbn [_commands]; eauto.
Qed.

(** A schema key [commands] reaches the accessor: the stored schema is
    replaced by a bound function. *)
Lemma commands_key_replaces_schema (ks : list string) :
  forall this,
    class_proto this = true ->
    "__proto__" ∉ ks ->
    "commands" ∈ ks ->
    exists c, _commands (fold_left assign_function ks this) = Some (SBound c).
Proof.
  induction ks as [|k' ks IH]; intros this Hclass Hp Hin; [inversion Hin|].
  cbn [fold_left]. rewrite not_elem_of_cons in Hp. destruct Hp as [Hp Hps].
  destruct (decide (k' = "commands")) as [->|Hne].
  - apply commands_bound_fold_assign. unfold assign_function.
    rewrite Hclass. cbn. eauto.
  - apply IH; [|assumption|].
    + rewrite class_proto_assign_function by congruence. assumption.
    + rewrite elem_of_cons in Hin. destruct Hin as [Heq|Hin]; [congruence|assumption].
Qed.

(** C5 (amended).  The [commands] setter has no failure outcome: assigning
    a schema whose key collides with a member of the JSON-RPC client raises
    no error.  A key other than [commands] and [__proto__] (for instance
    [call], [handleDefaults], [handleCasing], [connection], [methodCasing]
    or [_commands]) is bound like any other key, so that the own property
    of that name is the convenience function, when the schema has no key
    [commands]; and the key [commands] reaches the accessor, which replaces
    the stored schema by the convenience function. *)
Theorem set_commands_binds_reserved_keys
    (this : Instance) (value : Schema) (k : string) :
  k ∈ schema_keys value ->
  (k <> "__proto__" -> "commands" ∉ schema_keys value ->
   bound_at (set_commands this value) k = Some k) /\
  (k = "commands" -> class_proto this = true ->
   "__proto__" ∉ schema_keys value ->
   exists c, get_commands (set_commands this value) = Some (SBound c)).
Proof.
  intros Hin. split.
  - intros Hp Hc. rewrite bound_at_set_commands by assumption.
    now rewrite decide_True by (split; assumption).
  - intros -> Hclass Hp. unfold get_commands, set_commands, set_commands_with.
    cbn [for_in_keys]. apply commands_key_replaces_schema; try assumption.
    cbn [class_proto]. now rewrite own_fold_delete_class_proto.
Qed.



(** X21.  The constructor establishes the correspondence: a client built on a
    schema without the keys [commands], [_commands], [__proto__] and
    [methodCasing] has a bound function exactly at the keys of the schema.
    (The constructor assigns [methodCasing] after the schema, which would
    overwrite a function bound at that key.) *)
Lemma new_JSONRPCClient_bindings (conn : loc) (schema : Schema) (casing : JsVal) :
  "commands" ∉ schema_keys schema ->
  "_commands" ∉ schema_keys schema ->
  "__proto__" ∉ schema_keys schema ->
  "methodCasing" ∉ schema_keys schema ->
  get_commands (new_JSONRPCClient conn schema casing) = Some (SSchema schema) /\
  forall k c, bound_at (new_JSONRPCClient conn schema casing) k = Some c
              <-> (k ∈ schema_keys schema /\ c = k).
Proof.
  intros Hc Hu Hp Hm.
  set (this1 := assign_data {| _commands := None; own := ∅; class_proto := true |}
                            "connection" (MRef conn)).
  assert (Hnone : forall k, bound_at this1 k = None).
  { intros k. unfold bound_at, this1, assign_data. cbn [_commands own].
    destruct (String.eqb k "_commands"); [reflexivity|].
    destruct (decide (k = "connection")) as [->|Hne].
    - now rewrite lookup_insert_eq.
    - rewrite lookup_insert_ne by congruence. now rewrite lookup_empty. }
  assert (Hset : forall k, bound_at (set_commands this1 schema) k
                           = if decide (k ∈ schema_keys schema) then Some k else None).
  { intros k. rewrite bound_at_set_commands by assumption. rewrite Hnone.
    destruct (decide (k ∈ schema_keys schema)) as [Hin|Hnot].
    - rewrite decide_True; [reflexivity|]. split; [assumption|congruence].
    - rewrite decide_False by (intros [? _]; contradiction).
      repeat case_decide; reflexivity. }
  assert (Hget : _commands (set_commands this1 schema) = Some (SSchema schema)).
  { unfold set_commands, set_commands_with. cbn [for_in_keys].
    now rewrite commands_fold_assign. }
  split; [exact Hget|].
  intros k c. unfold new_JSONRPCClient. fold this1.
  unfold bound_at at 1. unfold assign_data. cbn [_commands own].
  destruct (String.eqb_spec k "_commands") as [->|Hk].
  { rewrite Hget. split; [discriminate|]. intros [Hin _]. contradiction. }
  destruct (decide (k = "methodCasing")) as [->|Hne].
  - rewrite lookup_insert_eq. split.
    + destruct casing; discriminate.
    + intros [Hin _]. contradiction.
  - rewrite lookup_insert_ne by congruence.
    specialize (Hset k). unfold bound_at in Hset.
    apply String.eqb_neq in Hk. rewrite Hk in Hset. rewrite Hset.
    case_decide; split; try discriminate; intuition congruence.
Qed.

(** ** The [commands] setter, further *)

Lemma own_delete_property this k' k :
  own (delete_property this k') !! k
  = if decide (k = k' /\ k <> "_commands") then None else own this !! k.
Proof.
  unfold delete_property.
  destruct (String.eqb_spec k' "_commands") as [->|Hk']; cbn [own].
  - rewrite decide_False; [reflexivity|]. intros [-> ?]. congruence.
  - destruct (decide (k = k')) as [->|Hne].
    + rewrite decide_True by (split; [reflexivity|assumption]).
      apply lookup_delete_eq.
    + rewrite decide_False by (intros [? _]; congruence).
      now apply lookup_delete_ne.
Qed.

Lemma own_fold_delete (ks : list string) :
  forall this k,
    own (fold_left delete_property ks this) !! k
    = if decide (k ∈ ks /\ k <> "_commands") then None else own this !! k.
Proof.
  induction ks as [|k' ks IH]; intros this k; cbn [fold_left].
  - rewrite decide_False; [reflexivity|]. intros [Hin _]. inversion Hin.
  - rewrite IH, own_delete_property.
    repeat case_decide; try reflexivity; exfalso;
      rewrite ?elem_of_cons in *; intuition congruence.
Qed.

Lemma commands_fold_delete (ks : list string) :
  forall this,
    _commands (fold_left delete_property ks this)
    = if decide ("_commands" ∈ ks) then None else _commands this.
Proof.
  induction ks as [|k' ks IH]; intros this; cbn [fold_left].
  - rewrite decide_False; [reflexivity|]. intros Hin. inversion Hin.
  - rewrite IH. unfold delete_property.
    destruct (String.eqb_spec k' "_commands") as [->|Hk']; cbn [_commands];
      repeat case_decide; try reflexivity; exfalso;
      rewrite ?elem_of_cons in *; intuition congruence.
Qed.

Lemma own_assign_function this k' k :
  k' <> "commands" ->
  own (assign_function this k') !! k
  = if decide (k = k' /\ k <> "__proto__" /\ k <> "_commands")
    then Some (MBound k) else own this !! k.
Proof.
  intros Hc. unfold assign_function.
  destruct (String.eqb_spec k' "__proto__") as [->|Hp]; cbn [own].
  { rewrite decide_False; [reflexivity|]. intros (-> & ? & _). congruence. }
  destruct (String.eqb_spec k' "commands") as [->|_]; [congruence|]. cbn [andb].
  destruct (String.eqb_spec k' "_commands") as [->|Hu]; cbn [own].
  { rewrite decide_False; [reflexivity|]. intros (-> & _ & ?). congruence. }
  destruct (decide (k = k')) as [->|Hne].
  - rewrite decide_True by (repeat split; assumption). apply lookup_insert_eq.
  - rewrite decide_False by (intros [? _]; congruence).
    now apply lookup_insert_ne.
Qed.

Lemma own_fold_assign (ks : list string) :
  "commands" ∉ ks ->
  forall this k,
    own (fold_left assign_function ks this) !! k
    = if decide (k ∈ ks /\ k <> "__proto__" /\ k <> "_commands")
      then Some (MBound k) else own this !! k.
Proof.
  induction ks as [|k' ks IH]; intros Hc this k; cbn [fold_left].
  - rewrite decide_False; [reflexivity|]. intros [Hin _]. inversion Hin.
  - rewrite not_elem_of_cons in Hc. destruct Hc as [Hc Hcs].
    rewrite IH by assumption. rewrite own_assign_function by congruence.
    repeat case_decide; try reflexivity; exfalso;
      rewrite ?elem_of_cons in *; intuition congruence.
Qed.

Lemma class_proto_fold_assign (ks : list string) :
  "__proto__" ∉ ks ->
  forall this, class_proto (fold_left assign_function ks this) = class_proto this.
Proof.
  induction ks as [|k' ks IH]; intros Hp this; cbn [fold_left]; [reflexivity|].
  rewrite not_elem_of_cons in Hp. destruct Hp as [Hp Hps].
  rewrite IH by assumption. apply class_proto_assign_function. congruence.
Qed.

(** The own properties after an assignment of a schema without the key
    [commands], in closed form. *)
Lemma own_set_commands this value k :
  "commands" ∉ schema_keys value ->
  own (set_commands this value) !! k
  = if decide (k ∈ schema_keys value /\ k <> "__proto__" /\ k <> "_commands")
    then Some (MBound k)
    else if decide (k ∈ for_in_keys (_commands this) /\ k <> "_commands")
         then None
         else own this !! k.
Proof.
  intros Hc. unfold set_commands, set_commands_with. cbn [for_in_keys].
  rewrite own_fold_assign by assumption. cbn [own].
  now rewrite own_fold_delete.
Qed.

Lemma Instance_eq (a b : Instance) :
  _commands a = _commands b -> own a = own b -> class_proto a = class_proto b ->
  a = b.
Proof. destruct a, b; cbn. intros -> -> ->. reflexivity. Qed.

(** X19.  Assigning a schema touches only the own properties named by a
    key of the previous or of the new schema: every other own property of
    the client, such as [connection] and [methodCasing] when no key has
    that name, is exactly what it was. *)
Theorem set_commands_preserves_other_properties
    (this : Instance) (value : Schema) (k : string) :
  "commands" ∉ schema_keys value ->
  k ∉ schema_keys value ->
  k ∉ for_in_keys (get_commands this) ->
  own (set_commands this value) !! k = own this !! k.
Proof.
  intros Hc Hnew Hold. rewrite own_set_commands by assumption.
  rewrite decide_False by (intros [? _]; contradiction).
  rewrite decide_False by (intros [? _]; contradiction).
  reflexivity.
Qed.

(** X20.  Assigning the same schema twice is the same as assigning it
    once, for a schema without the keys [commands], [_commands] and
    [__proto__]: the second assignment deletes the bound functions and
    binds them again, and the client ends as it was. *)
Theorem set_commands_idempotent (this : Instance) (value : Schema) :
  "commands" ∉ schema_keys value ->
  "_commands" ∉ schema_keys value ->
  "__proto__" ∉ schema_keys value ->
  set_commands (set_commands this value) value = set_commands this value.
Proof.
  intros Hc Hu Hp.
  assert (Hslot : forall c, _commands (set_commands c value) = Some (SSchema value)).
  { intros c. unfold set_commands, set_commands_with. cbn [for_in_keys].
    now rewrite commands_fold_assign. }
  assert (Hclass : forall c, class_proto (set_commands c value) = class_proto c).
  { intros c. unfold set_commands, set_commands_with. cbn [for_in_keys].
    rewrite class_proto_fold_assign by assumption. cbn [class_proto].
    apply own_fold_delete_class_proto. }
  apply Instance_eq.
  - now rewrite !Hslot.
  - apply map_eq. intros k. rewrite (own_set_commands (set_commands this value))
      by assumption.
    rewrite Hslot. cbn [for_in_keys].
    repeat case_decide; try reflexivity.
    + rewrite own_set_commands by assumption. now rewrite decide_True.
    + exfalso. match goal with H : ¬ _ |- _ => apply H end.
      repeat split; try tauto; intros ->; tauto.
  - now rewrite !Hclass.
Qed.

(** * The properties on concrete inputs *)

Ltac not_in_keys :=
  let H := fresh in
  intros H; apply list_elem_of_In in H; simpl in H; intuition discriminate.







(** C5, as stated, fails: assigning the schema [{call: [], connection: []}]
    returns normally, and the client's own properties [call] and
    [connection] are then the convenience functions. *)
Lemma schema_keys_overwrite_client_members :
  own example_instance !! "connection" = Some (MRef 1) /\
  own example_instance !! "call" = None /\
  own (set_commands example_instance (literal [("call", []); ("connection", [])]))
    !! "call" = Some (MBound "call") /\
  own (set_commands example_instance (literal [("call", []); ("connection", [])]))
    !! "connection" = Some (MBound "connection").
Proof. repeat split. Qed.

Lemma set_commands_binds_reserved_keys_witness :
  ("call" ∈ schema_keys (literal [("call", []); ("connection", [])])) /\
  bound_at (set_commands example_instance
              (literal [("call", []); ("connection", [])])) "call"
  = Some "call".
Proof.
  assert (Hin : "call" ∈ schema_keys (literal [("call", []); ("connection", [])])).
  { apply list_elem_of_In. simpl. left. reflexivity. }
  split; [exact Hin|].
  apply (proj1 (set_commands_binds_reserved_keys example_instance
                  (literal [("call", []); ("connection", [])]) "call" Hin)).
  - discriminate.
  - not_in_keys.
Defined.



Lemma handleCasing_policies_witness :
  JStr "1" <> JNum METHOD_CASING.LOWER /\
  JStr "1" <> JNum METHOD_CASING.UPPER /\
  JStr "1" <> JNum METHOD_CASING.DEFAULT /\
  handleCasing (JStr "1") "Foo" = "Foo".
Proof.
  split; [discriminate|]. split; [discriminate|]. split; [discriminate|].
  apply (proj1 (proj2 (proj2 (proj2 (handleCasing_policies "Foo")))));
    discriminate.
Defined.



Lemma getConnectionByName_invalid_witness :
  fst (getChainNames example_chain_path example_fs example_world) = Ok ["chain1"] /\
  ("chain2" ∉ ["chain1"]) /\
  getConnectionByName example_chain_path example_fs "chain2" 1 example_world
  = (Throw InvalidChain,
     snd (getChainNames example_chain_path example_fs example_world)) /\
  heap (snd (getChainNames example_chain_path example_fs example_world))
  = heap example_world.
Proof.
  assert (Hnot : "chain2" ∉ ["chain1"]) by not_in_keys.
  split; [reflexivity|]. split; [exact Hnot|].
  destruct (getConnectionByName_invalid example_chain_path example_fs
              "chain2" 1 example_world
              (snd (getChainNames example_chain_path example_fs example_world))
              ["chain1"] eq_refl Hnot)
    as (Hthrow & _ & Hheap & _).
  split; [exact Hthrow|exact Hheap].
Defined.


(** A successful resolution on the example file system: the object at
    location 1 receives [user], [pass] and [port]. *)
Example getConnectionByName_chain1 :
  let r := getConnectionByName example_chain_path example_fs "chain1" 1
                               example_world in
  fst r = Ok 1 /\
  obj_get (deref (snd r) 1) "user" = JStr "multichainrpc" /\
  obj_get (deref (snd r) 1) "pass" = JStr "secret" /\
  obj_get (deref (snd r) 1) "port" = JStr "4242".
Proof. repeat split. Qed.

(** The identifiers of the examples are pairwise distinct. *)
Lemma example_uuid_inj (a b : nat) : example_uuid a = example_uuid b -> a = b.
Proof.
  unfold example_uuid. intros H. apply (inj (String.app "uuid-")) in H.
  now apply (inj pretty) in H.
Qed.

(** ** The further properties on concrete inputs *)

Ltac not_in_computed_keys :=
  let H := fresh in
  intros H; apply list_elem_of_In in H; vm_compute in H; intuition discriminate.

Lemma handleDefaults_length_witness :
  handleDefaults example_schema "getaddresses" [JNum 1; JNum 2; JNum 3]
  = Ok [JNum 1] /\
  length [JNum 1] = length [JObj [("verbose", JBool false)]].
Proof.
  split; [reflexivity|].
  apply (handleDefaults_length example_schema "getaddresses"
           [JObj [("verbose", JBool false)]] [JNum 1; JNum 2; JNum 3] [JNum 1]);
    reflexivity.
Defined.

Lemma handleDefaults_all_truthy_witness :
  handleDefaults example_schema "grant"
    [JStr "1A2b"; JStr "send"; JNum 5; JStr "extra"]
  = Ok (take 3 [JStr "1A2b"; JStr "send"; JNum 5; JStr "extra"]).
Proof.
  apply (handleDefaults_all_truthy example_schema "grant"
           (EArray [JStr "addresses"; JStr "permissions";
                    JObj [("native-amount", JNum 0)]])
           3 [JStr "1A2b"; JStr "send"; JNum 5; JStr "extra"]);
    [reflexivity|reflexivity|].
  intros [|[|[|j]]] Hj; [reflexivity|reflexivity|reflexivity|lia].
Defined.

Lemma handleDefaults_idempotent_witness :
  handleDefaults example_schema "getaddresses" [] = Ok [JBool false] /\
  handleDefaults example_schema "getaddresses" [JBool false] = Ok [JBool false].
Proof.
  split; [reflexivity|].
  apply (handleDefaults_idempotent example_schema "getaddresses" [] [JBool false]).
  reflexivity.
Defined.

Lemma request_rejects_non_string_protocol_witness :
  exists w',
    request example_stringify example_uuid "getinfo" [] 1 example_world_bad_protocol
    = (Rejected (TypeError "options.protocol.trim is not a function"), w') /\
    heap w' = heap example_world_bad_protocol.
Proof.
  destruct (request_rejects_non_string_protocol example_stringify example_uuid
              "getinfo" [] 1 example_world_bad_protocol eq_refl
              ltac:(intros s; discriminate))
    as (w' & Hreq & Hheap & _).
  exists w'. split; [exact Hreq|exact Hheap].
Defined.

Lemma request_twice_same_options_witness :
  deref (snd (request example_stringify example_uuid "getblockcount" [] 1
                (snd (request example_stringify example_uuid "getinfo" [] 1
                              example_world)))) 1
  = prepared (deref example_world 1)
      (example_stringify (rpc_object (example_uuid 1) (trim "getblockcount") [])).
Proof.
  assert (H1 : request example_stringify example_uuid "getinfo" [] 1 example_world
               = (Pending 0,
                  snd (request example_stringify example_uuid "getinfo" [] 1
                               example_world)))
    by (vm_compute; reflexivity).
  assert (H2 : request example_stringify example_uuid "getblockcount" [] 1
                 (snd (request example_stringify example_uuid "getinfo" [] 1
                               example_world))
               = (Pending 1,
                  snd (request example_stringify example_uuid "getblockcount" [] 1
                         (snd (request example_stringify example_uuid "getinfo" [] 1
                                       example_world)))))
    by (vm_compute; reflexivity).
  exact (request_twice_same_options example_stringify example_uuid
           "getinfo" "getblockcount" [] [] 1 example_world _ _ 0 1 H1 H2).
Defined.

Lemma request_preserves_other_options_witness :
  obj_get (deref (snd (request example_stringify example_uuid "getinfo" [] 1
                               example_world)) 1) "host"
  = obj_get (deref example_world 1) "host".
Proof.
  apply (proj1 (request_preserves_other_options example_stringify example_uuid
                  "getinfo" [] 1 example_world
                  (snd (request example_stringify example_uuid "getinfo" [] 1
                                example_world))
                  0 eq_refl));
    discriminate.
Defined.

Lemma call_single_exchange_witness :
  exists x,
    sent (snd (call example_stringify example_uuid example_client
                    "getaddresses" [] example_world))
    = sent example_world ++ [x] /\
    written x
    = example_stringify (rpc_object (example_uuid 0) "getaddresses" [JBool false]).
Proof.
  destruct (call_single_exchange example_stringify example_uuid example_client
              "getaddresses" [] example_world
              (snd (call example_stringify example_uuid example_client
                         "getaddresses" [] example_world))
              (fst (call example_stringify example_uuid example_client
                         "getaddresses" [] example_world))
              eq_refl)
    as [(e & He & _) | [(e & He & _) | (x & ps & _ & Hs & Hps & Hw & _)]].
  - discriminate He.
  - discriminate He.
  - exists x. split; [exact Hs|]. rewrite Hw.
    vm_compute in Hps. injection Hps as <-. reflexivity.
Defined.


Lemma getChainNames_lists_chain_directories_witness :
  fst (getChainNames example_chain_path example_fs example_world) = Ok ["chain1"] /\
  ("chain1" ∈ List.filter (is_chain_dir example_chain_path example_fs)
                          [".cli_history"; "chain1"; "multichaind"; "notes.txt"]).
Proof.
  destruct (getChainNames_lists_chain_directories example_chain_path example_fs
              [".cli_history"; "chain1"; "multichaind"; "notes.txt"] example_world
              eq_refl ltac:(intros e _; eexists; reflexivity))
    as [Hrun Hmem].
  split.
  - rewrite Hrun. reflexivity.
  - apply Hmem. split.
    + apply list_elem_of_In. simpl. right. left. reflexivity.
    + repeat split. discriminate.
Defined.

Lemma getChainNames_propagates_fs_error_witness :
  fst (getChainNames example_chain_path example_fs_broken example_world)
  = Throw (FsError "ELOOP") /\
  fst (getConnectionByName example_chain_path example_fs_broken "chain1" 1
                           example_world)
  = Throw (FsError "ELOOP").
Proof.
  destruct (proj2 (getChainNames_propagates_fs_error example_chain_path
                     example_fs_broken "chain1" 1 example_world (FsError "ELOOP"))
                  [] ".lock" ["chain1"] eq_refl
                  ltac:(intros e He; inversion He) eq_refl)
    as [Hnames Hconn].
  split; [now rewrite Hnames|now rewrite Hconn].
Defined.

Lemma getConnectionByName_resolves_witness :
  exists w',
    getConnectionByName example_chain_path example_fs "chain1" 1 example_world
    = (Ok 1, w') /\
    obj_get (deref w' 1) "user" = JStr "multichainrpc" /\
    obj_get (deref w' 1) "pass" = JStr "secret" /\
    obj_get (deref w' 1) "port" = JStr "4242" /\
    obj_get (deref w' 1) "host" = JStr "localhost".
Proof.
  assert (Hin : "chain1" ∈ ["chain1"]) by (apply list_elem_of_In; now left).
  destruct (getConnectionByName_resolves example_chain_path example_fs
              "chain1" 1 example_world
              (snd (getChainNames example_chain_path example_fs example_world))
              ["chain1"]
              ("rpcuser=multichainrpc" +:+ String newline
                 ("rpcpassword=secret" +:+ String newline ""))
              "rpcpassword=secret"
              ("chain-protocol = multichain" +:+ String newline
                 ("default-rpc-port = 4242    # rpc" +:+ String newline ""))
              "default-rpc-port = 4242    # rpc"
              " 4242    # rpc"
              eq_refl Hin eq_refl eq_refl eq_refl eq_refl eq_refl)
    as (w' & Hrun & Hu & Hp & Hport & Hother & _).
  exists w'. split; [exact Hrun|]. split; [exact Hu|]. split; [exact Hp|].
  split; [exact Hport|]. apply Hother; discriminate.
Defined.

Lemma getConnectionByName_partial_on_missing_port_witness :
  exists err w',
    getConnectionByName example_chain_path example_fs_partial "chain1" 1
                        example_world
    = (Throw err, w') /\
    obj_get (deref example_world 1) "user" = JUndefined /\
    obj_get (deref w' 1) "user" = JStr "multichainrpc" /\
    obj_get (deref w' 1) "pass" = JStr "secret" /\
    obj_get (deref w' 1) "port" = JUndefined.
Proof.
  assert (Hin : "chain1" ∈ ["chain1"]) by (apply list_elem_of_In; now left).
  destruct (getConnectionByName_partial_on_missing_port example_chain_path
              example_fs_partial "chain1" 1 example_world
              (snd (getChainNames example_chain_path example_fs_partial
                                  example_world))
              ["chain1"]
              ("rpcuser=multichainrpc" +:+ String newline
                 ("rpcpassword=secret" +:+ String newline ""))
              "rpcpassword=secret"
              eq_refl Hin eq_refl eq_refl
              (or_introl (ex_intro _ (FsError "ENOENT") eq_refl)))
    as (err & w' & Hrun & Hu & Hp & Hport & _).
  exists err, w'. split; [exact Hrun|]. split; [reflexivity|].
  split; [exact Hu|]. split; [exact Hp|exact Hport].
Defined.

Lemma after_equals_key_value_witness :
  after_equals "rpcuser=multichainrpc" = JStr "multichainrpc" /\
  after_equals "rpcpassword=pa=ss" = JStr "pa" /\
  after_equals "rpcuser" = JUndefined.
Proof.
  destruct (after_equals_key_value "rpcuser" "multichainrpc" eq_refl eq_refl)
    as (Hkv & _ & Hk).
  destruct (after_equals_key_value "rpcpassword" "pa" eq_refl eq_refl)
    as (_ & Hcut & _).
  split; [exact Hkv|]. split; [exact (Hcut "ss")|exact Hk].
Defined.

Lemma first_token_first_word_witness :
  first_token " 4242    # rpc" = JStr "4242".
Proof.
  apply (proj2 (first_token_first_word " " "4242" eq_refl
                  ltac:(discriminate) eq_refl)
               " "%char "   # rpc" eq_refl).
Defined.


Lemma request_id_differs_from_later_witness :
  exists x1 x2 id1 id2,
    sent (snd (request example_stringify example_uuid "getinfo" [] 1 example_world))
    = sent example_world ++ [x1] /\
    written x1 = example_stringify (rpc_object id1 (trim "getinfo") []) /\
    written x2 = example_stringify (rpc_object id2 (trim "getblockcount") []) /\
    id1 <> id2.
Proof.
  assert (H1 : request example_stringify example_uuid "getinfo" [] 1 example_world
               = (Pending 0,
                  snd (request example_stringify example_uuid "getinfo" [] 1
                               example_world)))
    by (vm_compute; reflexivity).
  assert (H2 : request example_stringify example_uuid "getblockcount" [] 1
                 (snd (request example_stringify example_uuid "getinfo" [] 1
                               example_world))
               = (Pending 1,
                  snd (request example_stringify example_uuid "getblockcount" [] 1
                         (snd (request example_stringify example_uuid "getinfo" [] 1
                                       example_world)))))
    by (vm_compute; reflexivity).
  destruct (request_id_differs_from_later example_stringify example_uuid
              "getinfo" "getblockcount" [] [] 1 1 example_world _ _ _
              0 1 example_uuid_inj H1 (le_n _) H2)
    as (x1 & x2 & id1 & id2 & Hs1 & _ & Hw1 & Hw2 & Hne).
  exists x1, x2, id1, id2. split; [exact Hs1|]. split; [exact Hw1|].
  split; [exact Hw2|exact Hne].
Defined.

Lemma set_commands_preserves_other_properties_witness :
  own (set_commands example_instance (literal [("b", [])])) !! "connection"
  = own example_instance !! "connection".
Proof.
  apply (set_commands_preserves_other_properties example_instance
           (literal [("b", [])]) "connection");
    [not_in_keys|not_in_keys|not_in_computed_keys].
Defined.

Lemma set_commands_idempotent_witness :
  set_commands (set_commands example_instance (literal [("b", [])]))
               (literal [("b", [])])
  = set_commands example_instance (literal [("b", [])]).
Proof.
  apply (set_commands_idempotent example_instance (literal [("b", [])]));
    not_in_keys.
Defined.

Lemma new_JSONRPCClient_bindings_witness :
  get_commands (new_JSONRPCClient 1 (literal [("a", [])]) JUndefined)
  = Some (SSchema (literal [("a", [])])) /\
  bound_at (new_JSONRPCClient 1 (literal [("a", [])]) JUndefined) "a" = Some "a".
Proof.
  destruct (new_JSONRPCClient_bindings 1 (literal [("a", [])]) JUndefined
              ltac:(not_in_keys) ltac:(not_in_keys) ltac:(not_in_keys)
              ltac:(not_in_keys))
    as [Hget Hiff].
  split; [exact Hget|]. apply Hiff. split; [|reflexivity].
  apply list_elem_of_In. simpl. left. reflexivity.
Defined.
